(** * Yukina: the note aggregation layer

    A shallow embedding of [GetSortednotes], [GetNotes], [GetTags] and
    [GetCategories] (the content utilities of the theme) and of
    [getSortedNotes] (src/utils/notes.ts), together with the properties
    the specification states about them.

    Conventions of the embedding:
    - a JavaScript [Date] is its time value, an integer number of
      milliseconds ([Z]); invalid dates are not valid input of the
      aggregation layer, so [NaN] time values are not modelled;
    - an array is a [list]; a [Map] is an association list in insertion
      order with unique keys, because the iteration order of a [Map] is
      observable;
    - an optional property is an [option]; [None] is an absent property;
    - [import.meta.env.PROD] and the content of the "notes" collection are
      explicit arguments of every entry point;
    - [IdToSlug] (module ./hash) and [Date.prototype.getFullYear] are
      parameters of the development. *)

From Stdlib Require Import ZArith String List Sorted Permutation Lia.
From stdpp Require Import base list strings.

Local Open Scope Z_scope.

(** ** Host builtins *)

Module Host.

(** [for (let i = lo; i < hi; i++) body] over a state [S]. *)
Definition for_loop {S : Type} (lo hi : nat) (body : nat -> S -> S) (s : S) : S :=
  foldl (fun s i => body i s) s (seq lo (hi - lo)).

Section ArraySort.
Context {A : Type}.

(** The place of a new element [x] in an already ordered run: in front of
    the first element [y] with [comparefn x y < 0], behind everything
    before it. *)
Fixpoint Array_place (comparefn : A -> A -> Z) (x : A) (run : list A) : list A :=
  match run with
  | [] => [x]
  | y :: run' =>
      if comparefn x y <? 0 then x :: y :: run'
      else y :: Array_place comparefn x run'
  end.

(** [Array.prototype.sort(comparefn)].  The engine that builds the site
    (V8, under Node.js) sorts stably and consults the comparison function
    only as [comparefn later earlier], for [later] behind [earlier] in the
    array, moving [later] ahead exactly on a negative answer.  When the
    negative answers order the elements by a key, as those of the three
    comparison functions of this program do, the result of such a
    procedure is determined (lemma [Array_sort_unique]); this definition is
    its insertion form.  ECMAScript alone leaves the order of elements for
    which [comparefn] answers positively both ways to the implementation. *)
Definition Array_sort (comparefn : A -> A -> Z) (a : list A) : list A :=
  foldl (fun run x => Array_place comparefn x run) [] a.

End ArraySort.

Section JSMap.
Context {K V : Type} `{EqDecision K}.

(** A [Map<K, V>]: its entries in insertion order. *)
Definition Map := list (K * V).

Definition Map_empty : Map := [].

Fixpoint Map_get (k : K) (m : Map) : option V :=
  match m with
  | [] => None
  | (k', v) :: m' => if decide (k = k') then Some v else Map_get k m'
  end.

Definition Map_has (k : K) (m : Map) : bool :=
  match Map_get k m with Some _ => true | None => false end.

(** [m.set(k, v)]: a present key keeps its place and takes the new value,
    a new key is appended. *)
Fixpoint Map_set (k : K) (v : V) (m : Map) : Map :=
  match m with
  | [] => [(k, v)]
  | (k', v') :: m' =>
      if decide (k = k') then (k, v) :: m' else (k', v') :: Map_set k v m'
  end.

(** In-place mutation of the object stored under [k], as in
    [m.get(k)!.notes.push(x)]. *)
Fixpoint Map_mutate (k : K) (f : V -> V) (m : Map) : Map :=
  match m with
  | [] => []
  | (k', v) :: m' =>
      if decide (k = k') then (k', f v) :: m' else (k', v) :: Map_mutate k f m'
  end.

Definition Map_entries (m : Map) : list (K * V) := m.

(** [new Map(entries)] *)
Definition Map_new (entries : list (K * V)) : Map :=
  foldl (fun m kv => Map_set kv.1 kv.2 m) Map_empty entries.

(** [m.forEach((value) => ...)] where the callback mutates [value] in
    place to [f value]. *)
Definition Map_forEach_mutate (f : V -> V) (m : Map) : Map :=
  map (fun kv => (kv.1, f kv.2)) m.

Definition Map_keys (m : Map) : list K := map fst m.
Definition Map_values (m : Map) : list V := map snd m.
End JSMap.

Arguments Map : clear implicits.

End Host.

Import Host.

(** ** Data model *)

(** Time value of a [Date]. *)
Definition Date := Z.

(** [new Date(d)] for a valid date [d] has the time value of [d]. *)
Definition new_Date (d : Date) : Date := d.

(** The validated front matter of a note ([note.data]).  The four link
    properties are not part of the collection schema; [GetSortednotes]
    attaches them through an [any] cast. *)
Module Data.
Record t := mk {
  title : string;
  published : Date;
  draft : option bool;
  tags : option (list string);
  category : option string;
  nextSlug : option (option string);
  nextTitle : option string;
  prevSlug : option (option string);
  prevTitle : option string
}.
End Data.

(** An entry of the "notes" collection.  [slug] is read through an [any]
    cast and is [undefined] ([None]) on entries that have none. *)
Module Entry.
Record t := mk {
  id : string;
  slug : option string;
  data : Data.t
}.
End Entry.

(** [interface Notes] *)
Module Notes.
Record t := mk {
  title : string;
  id : string;
  date : Date;
  tags : option (list string)
}.
End Notes.

(** [interface Tag] *)
Module Tag.
Record t := mk {
  name : string;
  slug : string;
  notes : list Notes.t
}.
End Tag.

(** [interface Category] *)
Module Category.
Record t := mk {
  name : string;
  slug : string;
  notes : list Notes.t
}.
End Category.

(** ** The aggregation functions *)

(** [getCollection("notes", filter)]: the entries of the collection, in
    source order, that pass the filter. *)
Definition getCollection (store : list Entry.t) (filter : Entry.t -> bool) : list Entry.t :=
  List.filter filter store.

(** [draft !== true] *)
Definition not_true (draft : option bool) : bool :=
  match draft with
  | Some true => false
  | _ => true
  end.

(** [({ data }) => import.meta.env.PROD ? data.draft !== true : true] *)
Definition draftFilter (PROD : bool) (e : Entry.t) : bool :=
  if PROD then not_true (Data.draft (Entry.data e)) else true.

(** [(a, b) => new Date(a.data.published) > new Date(b.data.published) ? -1 : 1] *)
Definition byPublished (a b : Entry.t) : Z :=
  let dateA := new_Date (Data.published (Entry.data a)) in
  let dateB := new_Date (Data.published (Entry.data b)) in
  if dateA >? dateB then -1 else 1.

(** src/utils/notes.ts *)
Definition getSortedNotes (PROD : bool) (store : list Entry.t) : list Entry.t :=
  let allNotes := getCollection store (draftFilter PROD) in
  let sorted := Array_sort byPublished allNotes in
  sorted.

(** [e.data.nextSlug = s; e.data.nextTitle = t] *)
Definition setNext (s : option string) (t : string) (e : Entry.t) : Entry.t :=
  let d := Entry.data e in
  Entry.mk (Entry.id e) (Entry.slug e)
    (Data.mk (Data.title d) (Data.published d) (Data.draft d) (Data.tags d)
       (Data.category d) (Some s) (Some t) (Data.prevSlug d) (Data.prevTitle d)).

(** [e.data.prevSlug = s; e.data.prevTitle = t] *)
Definition setPrev (s : option string) (t : string) (e : Entry.t) : Entry.t :=
  let d := Entry.data e in
  Entry.mk (Entry.id e) (Entry.slug e)
    (Data.mk (Data.title d) (Data.published d) (Data.draft d) (Data.tags d)
       (Data.category d) (Data.nextSlug d) (Data.nextTitle d) (Some s) (Some t)).

(** Body of the first loop of [GetSortednotes].  Both indices are inside
    the array for every [i] the loop reaches (lemma [stitchNext_in_range]);
    the last branch is never taken. *)
Definition stitchNext (i : nat) (sorted : list Entry.t) : list Entry.t :=
  match sorted !! i, sorted !! (i - 1)%nat with
  | Some cur, Some before =>
      <[i := setNext (Entry.slug before) (Data.title (Entry.data before)) cur]> sorted
  | _, _ => sorted
  end.

(** Body of the second loop of [GetSortednotes]. *)
Definition stitchPrev (i : nat) (sorted : list Entry.t) : list Entry.t :=
  match sorted !! i, sorted !! (i + 1)%nat with
  | Some cur, Some after =>
      <[i := setPrev (Entry.slug after) (Data.title (Entry.data after)) cur]> sorted
  | _, _ => sorted
  end.

Definition GetSortednotes (PROD : bool) (store : list Entry.t) : list Entry.t :=
  let allBlognotes := getCollection store (draftFilter PROD) in
  let sorted := Array_sort byPublished allBlognotes in
  let sorted := for_loop 1 (length sorted) stitchNext sorted in
  let sorted := for_loop 0 (length sorted - 1) stitchPrev sorted in
  sorted.

(** [(a, b) => (a.date > b.date ? -1 : 1)] *)
Definition byDate (a b : Notes.t) : Z :=
  if Notes.date a >? Notes.date b then -1 else 1.

(** [(a, b) => b[0] - a[0]] *)
Definition byYearDesc (a b : Z * list Notes.t) : Z := b.1 - a.1.

Section Aggregator.
(** [IdToSlug] of ./hash. *)
Variable IdToSlug : string -> string.
(** [Date.prototype.getFullYear], on time values. *)
Variable getFullYear : Date -> Z.

(** The object literal pushed by [GetNotes], [GetTags] and
    [GetCategories]. *)
Definition noteOf (note : Entry.t) : Notes.t :=
  Notes.mk (Data.title (Entry.data note))
    ("/notes/" +:+ IdToSlug (Entry.id note))
    (new_Date (Data.published (Entry.data note)))
    (Data.tags (Entry.data note)).

(** Body of the [for ... of] loop of [GetNotes]. *)
Definition addToYear (notes : Map Z (list Notes.t)) (note : Entry.t) : Map Z (list Notes.t) :=
  let date := new_Date (Data.published (Entry.data note)) in
  let year := getFullYear date in
  let notes := if negb (Map_has year notes) then Map_set year [] notes else notes in
  Map_mutate year (fun bucket => bucket ++ [noteOf note]) notes.

Definition GetNotes (PROD : bool) (store : list Entry.t) : Map Z (list Notes.t) :=
  let allBlognotes := getCollection store (draftFilter PROD) in
  let notes := foldl addToYear Map_empty allBlognotes in
  let sortedNotes := Map_new (Array_sort byYearDesc (Map_entries notes)) in
  Map_forEach_mutate (Array_sort byDate) sortedNotes.

(** Body of the inner [forEach] of [GetTags]. *)
Definition addToTag (note : Entry.t) (tags : Map string Tag.t) (tag : string) : Map string Tag.t :=
  let tagSlug := IdToSlug tag in
  let tags :=
    if negb (Map_has tagSlug tags)
    then Map_set tagSlug (Tag.mk tag ("/tags/" +:+ tagSlug) []) tags
    else tags in
  Map_mutate tagSlug
    (fun t => Tag.mk (Tag.name t) (Tag.slug t) (Tag.notes t ++ [noteOf note])) tags.

(** [note.data.tags?.forEach(...)] *)
Definition addTags (tags : Map string Tag.t) (note : Entry.t) : Map string Tag.t :=
  match Data.tags (Entry.data note) with
  | Some ts => foldl (addToTag note) tags ts
  | None => tags
  end.

Definition GetTags (PROD : bool) (store : list Entry.t) : Map string Tag.t :=
  let allBlognotes := getCollection store (draftFilter PROD) in
  foldl addTags Map_empty allBlognotes.

(** [!note.data.category]: the property is absent or the empty string. *)
Definition falsy (category : option string) : bool :=
  match category with
  | None => true
  | Some c => bool_decide (c = EmptyString)
  end.

(** Body of the [forEach] of [GetCategories]: [if (!note.data.category)
    return;] and then the indexing of a category that is a non-empty
    string. *)
Definition addToCategory (categories : Map string Category.t) (note : Entry.t)
  : Map string Category.t :=
  if falsy (Data.category (Entry.data note)) then categories
  else
    match Data.category (Entry.data note) with
    | None => categories
    | Some category =>
        let categorySlug := IdToSlug category in
        let categories :=
          if negb (Map_has categorySlug categories)
          then Map_set categorySlug
                 (Category.mk category ("/categories/" +:+ categorySlug) []) categories
          else categories in
        Map_mutate categorySlug
          (fun c => Category.mk (Category.name c) (Category.slug c)
                      (Category.notes c ++ [noteOf note])) categories
    end.

Definition GetCategories (PROD : bool) (store : list Entry.t) : Map string Category.t :=
  let allBlognotes := getCollection store (draftFilter PROD) in
  foldl addToCategory Map_empty allBlognotes.
End Aggregator.

(** ** Notions used by the statements *)

(** Non-increasing by [key] at every pair of adjacent positions. *)
Definition non_increasing {A : Type} (key : A -> Z) (l : list A) : Prop :=
  forall (i : nat) (x y : A), l !! i = Some x -> l !! S i = Some y -> key y <= key x.

(** Strictly descending at every pair of adjacent positions. *)
Definition strictly_descending (l : list Z) : Prop :=
  forall (i : nat) (x y : Z), l !! i = Some x -> l !! S i = Some y -> y < x.

(** The elements of [l] whose key is [d], in the order of [l]. *)
Definition dated {A : Type} (key : A -> Z) (d : Z) (l : list A) : list A :=
  List.filter (fun x => key x =? d) l.

Definition publishedOf (e : Entry.t) : Date := Data.published (Entry.data e).

(** An entry as the collection delivers it carries no link property. *)
Definition noLinks (e : Entry.t) : Prop :=
  Data.nextSlug (Entry.data e) = None /\ Data.nextTitle (Entry.data e) = None /\
  Data.prevSlug (Entry.data e) = None /\ Data.prevTitle (Entry.data e) = None.

(** The entry with its link properties deleted. *)
Definition withoutLinks (e : Entry.t) : Entry.t :=
  let d := Entry.data e in
  Entry.mk (Entry.id e) (Entry.slug e)
    (Data.mk (Data.title d) (Data.published d) (Data.draft d) (Data.tags d)
       (Data.category d) None None None None).

(** What the two loops of [GetSortednotes] leave at position [j] of the
    sorted array [s], for the entry [e] found there before the loops. *)
Definition linked (s : list Entry.t) (j : nat) (e : Entry.t) : Entry.t :=
  let e1 :=
    match j with
    | O => e
    | S j' =>
        match s !! j' with
        | Some before => setNext (Entry.slug before) (Data.title (Entry.data before)) e
        | None => e
        end
    end in
  match s !! S j with
  | Some after => setPrev (Entry.slug after) (Data.title (Entry.data after)) e1
  | None => e1
  end.

(** State of the array after the first [k] iterations of the first loop. *)
Definition afterNext (a : list Entry.t) (k : nat) (j : nat) (e : Entry.t) : Entry.t :=
  match j with
  | O => e
  | S j' =>
      if decide (j <= k)%nat then
        match a !! j' with
        | Some before => setNext (Entry.slug before) (Data.title (Entry.data before)) e
        | None => e
        end
      else e
  end.

(** State of the array after the first [k] iterations of the second loop. *)
Definition afterPrev (b : list Entry.t) (k : nat) (j : nat) (e : Entry.t) : Entry.t :=
  if decide (j < k)%nat then
    match b !! S j with
    | Some after => setPrev (Entry.slug after) (Data.title (Entry.data after)) e
    | None => e
    end
  else e.

(** The pattern shared by the three index builders: make sure a value is
    stored under the key of [x] (a fresh one is [v0 x]), then push [x] into
    it. *)
Section Grouping.
Context {K V X : Type} `{EqDecision K}.
Variables (kf : X -> K) (v0 : X -> V) (pu : X -> V -> V).

Definition upsert (m : Map K V) (x : X) : Map K V :=
  Map_mutate (kf x) (pu x)
    (if negb (Map_has (kf x) m) then Map_set (kf x) (v0 x) m else m).

Definition grouped (xs : list X) : Map K V := foldl upsert Map_empty xs.

(** The value a key ends with: created from the first item with that key,
    then every item with that key pushed in order. *)
Definition groupOf (k : K) (xs : list X) : option V :=
  match List.filter (fun x => bool_decide (kf x = k)) xs with
  | [] => None
  | x :: rest => Some (foldl (fun v y => pu y v) (v0 x) (x :: rest))
  end.
End Grouping.

Section SpecSide.
Variable IdToSlug : string -> string.
Variable getFullYear : Date -> Z.

Definition yearOf (e : Entry.t) : Z := getFullYear (publishedOf e).

(** The (document, tag) pairs of a document set, in iteration order. *)
Definition tagPairs (notes : list Entry.t) : list (Entry.t * string) :=
  flat_map (fun note => map (pair note) (default [] (Data.tags (Entry.data note)))) notes.

(** The Tag record the specification describes for a slug: absent when no
    pair has that slug; otherwise named after the first pair with that
    slug and holding one entry per pair with that slug. *)
Definition tagRecord (slug : string) (pairs : list (Entry.t * string)) : option Tag.t :=
  match List.filter (fun p => bool_decide (IdToSlug p.2 = slug)) pairs with
  | [] => None
  | p :: rest =>
      Some (Tag.mk p.2 ("/tags/" +:+ slug) (map (fun q => noteOf IdToSlug q.1) (p :: rest)))
  end.

(** The (document, category) pairs of the documents that have a non-empty
    category. *)
Definition categoryPairs (notes : list Entry.t) : list (Entry.t * string) :=
  flat_map (fun note =>
    match Data.category (Entry.data note) with
    | Some c => if bool_decide (c = EmptyString) then [] else [(note, c)]
    | None => []
    end) notes.

Definition categoryRecord (slug : string) (pairs : list (Entry.t * string))
  : option Category.t :=
  match List.filter (fun p => bool_decide (IdToSlug p.2 = slug)) pairs with
  | [] => None
  | p :: rest =>
      Some (Category.mk p.2 ("/categories/" +:+ slug)
              (map (fun q => noteOf IdToSlug q.1) (p :: rest)))
  end.

(** The entries a document contributes to the category record kept under
    [slug]. *)
Definition contribution (slug : string) (note : Entry.t) : list Notes.t :=
  match Data.category (Entry.data note) with
  | None => []
  | Some c =>
      if bool_decide (c = EmptyString) then []
      else if bool_decide (IdToSlug c = slug) then [noteOf IdToSlug note] else []
  end.

(** The entries of the documents published in year [y], in document order. *)
Definition yearBucket (y : Z) (notes : list Entry.t) : list Notes.t :=
  map (noteOf IdToSlug) (List.filter (fun e => bool_decide (yearOf e = y)) notes).

(** [GetNotes], [GetTags] and [GetCategories] as instances of the grouping
    pattern: the key of an item, the value created for a new key and the
    push of an item. *)
Definition yearPush (note : Entry.t) (bucket : list Notes.t) : list Notes.t :=
  bucket ++ [noteOf IdToSlug note].

Definition tagKey (p : Entry.t * string) : string := IdToSlug p.2.
Definition tagNew (p : Entry.t * string) : Tag.t :=
  Tag.mk p.2 ("/tags/" +:+ IdToSlug p.2) [].
Definition tagPush (p : Entry.t * string) (t : Tag.t) : Tag.t :=
  Tag.mk (Tag.name t) (Tag.slug t) (Tag.notes t ++ [noteOf IdToSlug p.1]).

Definition categoryNew (p : Entry.t * string) : Category.t :=
  Category.mk p.2 ("/categories/" +:+ IdToSlug p.2) [].
Definition categoryPush (p : Entry.t * string) (c : Category.t) : Category.t :=
  Category.mk (Category.name c) (Category.slug c)
    (Category.notes c ++ [noteOf IdToSlug p.1]).

Definition categoryNotesAt (slug : string) (m : Map string Category.t) : list Notes.t :=
  match Map_get slug m with
  | Some c => Category.notes c
  | None => []
  end.
End SpecSide.

(** ** Sample hosts and documents *)

(** [getFullYear] of a host whose local time is UTC: the civil year of a
    time value in milliseconds. *)
Definition utcFullYear (t : Date) : Z :=
  let z := t / 86400000 + 719468 in
  let era := z / 146097 in
  let doe := z - era * 146097 in
  let yoe := (doe - doe / 1460 + doe / 36524 - doe / 146096) / 365 in
  let doy := doe - (365 * yoe + yoe / 4 - yoe / 100) in
  let mp := (5 * doy + 2) / 153 in
  yoe + era * 400 + (if mp <? 10 then 0 else 1).

(** A slug function that folds ASCII upper case to lower case. *)
Definition lowerAscii (c : Ascii.ascii) : Ascii.ascii :=
  let n := Ascii.nat_of_ascii c in
  if ((65 <=? n) && (n <=? 90))%nat then Ascii.ascii_of_nat (n + 32) else c.

Fixpoint lowerSlug (s : string) : string :=
  match s with
  | EmptyString => EmptyString
  | String c s' => String (lowerAscii c) (lowerSlug s')
  end.

Definition sampleData (title : string) (published : Date) (draft : option bool)
    (tags : option (list string)) (category : option string) : Data.t :=
  Data.mk title published draft tags category None None None None.

(** A, published 2024-01-10 *)
Definition docA : Entry.t :=
  Entry.mk "a.md" (Some "a")
    (sampleData "A" 1704844800000 None (Some ["t1"; "t2"]) (Some "Rust")).
(** B, published 2024-06-01 *)
Definition docB : Entry.t :=
  Entry.mk "b.md" (Some "b")
    (sampleData "B" 1717200000000 (Some false) (Some ["t1"]) (Some "rust")).
(** C, published 2023-12-01 *)
Definition docC : Entry.t :=
  Entry.mk "c.md" (Some "c") (sampleData "C" 1701388800000 None (Some []) None).
(** D, a draft published on the same day as A *)
Definition docD : Entry.t :=
  Entry.mk "d.md" (Some "d")
    (sampleData "D" 1704844800000 (Some true) None (Some "")).
(** E, published at the same instant as A, tagged with another spelling *)
Definition docE : Entry.t :=
  Entry.mk "e.md" None (sampleData "E" 1704844800000 None (Some ["T1"]) (Some "Go")).

Definition sampleStore : list Entry.t := [docA; docB; docC; docD; docE].

(** The keys of [l] in the order in which they first occur: scanning from
    the left, a key is appended when it has not been seen. *)
Definition firstOccurrences {K : Type} `{EqDecision K} (l : list K) : list K :=
  foldl (fun seen k => if decide (k ∈ seen) then seen else seen ++ [k]) [] l.

(** A collection that holds drafts only. *)
Definition draftsOnly : list Entry.t := [docD].

(** A, as a previous stitching left it: with next links to a document "z"
    that is no longer in the collection. *)
Definition staleA : Entry.t := setNext (Some "z") "Z" docA.

(** ** Facts about the host sort *)

Section SortFacts.
Context {A : Type} (key : A -> Z) (comparefn : A -> A -> Z).
(** The three comparison functions of the program answer negatively
    exactly when the first argument has the larger key. *)
Hypothesis comparefn_desc : forall x y, (comparefn x y <? 0) = (key x >? key y).

Let R (x y : A) : Prop := key y <= key x.

Lemma Array_place_perm (x : A) (run : list A) :
  Array_place comparefn x run ≡ₚ x :: run.
Proof.
  induction run as [|y run IH]; simpl; [done|].
  destruct (comparefn x y <? 0); [done|].
  rewrite IH. apply Permutation_swap.
Qed.

Lemma Array_place_sorted (x : A) (run : list A) :
  StronglySorted R run -> StronglySorted R (Array_place comparefn x run).
Proof.
  induction 1 as [|y run Hs IH Hall]; simpl.
  - repeat constructor.
  - rewrite comparefn_desc. destruct (key x >? key y) eqn:E.
    + constructor; [by constructor|].
      constructor; [unfold R; lia|].
      eapply Forall_impl; [exact Hall|]. unfold R; simpl; intros; lia.
    + constructor; [exact IH|].
      rewrite (Array_place_perm x run). constructor; [unfold R; lia|exact Hall].
Qed.

Lemma dated_place (d : Z) (x : A) (run : list A) :
  StronglySorted R run ->
  dated key d (Array_place comparefn x run) = dated key d run ++ dated key d [x].
Proof.
  unfold dated. induction 1 as [|y run Hs IH Hall]; simpl; [done|].
  rewrite comparefn_desc. destruct (key x >? key y) eqn:E; simpl.
  - destruct (key x =? d) eqn:Ex.
    + assert (Hy : (key y =? d) = false) by lia. rewrite Hy.
      assert (Hnil : List.filter (fun z => key z =? d) run = []).
      { clear IH Hs. induction Hall as [|z run Hz _ IHa]; simpl; [done|].
        unfold R in Hz. assert (Hzd : (key z =? d) = false) by lia.
        by rewrite Hzd. }
      by rewrite Hnil.
    + by rewrite app_nil_r.
  - rewrite IH. simpl. by destruct (key y =? d).
Qed.

Lemma Array_sort_from (acc a : list A) :
  StronglySorted R acc ->
  let out := foldl (fun run x => Array_place comparefn x run) acc a in
  StronglySorted R out /\ out ≡ₚ acc ++ a /\
  forall d, dated key d out = dated key d acc ++ dated key d a.
Proof.
  revert acc. induction a as [|x a IH]; intros acc Hacc; simpl.
  - rewrite app_nil_r. split; [done|]. split; [done|].
    intros d. unfold dated. simpl. by rewrite app_nil_r.
  - destruct (IH (Array_place comparefn x acc) (Array_place_sorted x acc Hacc))
      as (Hs & Hp & Hd).
    split; [exact Hs|]. split.
    + rewrite Hp, Array_place_perm. simpl. apply Permutation_middle.
    + intros d. rewrite Hd, dated_place by done.
      unfold dated. simpl. rewrite <- app_assoc. f_equal.
      by destruct (key x =? d).
Qed.

Lemma Array_sort_sorted (a : list A) : StronglySorted R (Array_sort comparefn a).
Proof. apply (Array_sort_from [] a). constructor. Qed.

Lemma Array_sort_perm (a : list A) : Array_sort comparefn a ≡ₚ a.
Proof. apply (Array_sort_from [] a). constructor. Qed.

Lemma Array_sort_stable (d : Z) (a : list A) :
  dated key d (Array_sort comparefn a) = dated key d a.
Proof.
  destruct (Array_sort_from [] a) as (_ & _ & Hd); [constructor|].
  unfold Array_sort. exact (Hd d).
Qed.

(** A sorted array is determined by its groups of equal keys. *)
Lemma sorted_dated_unique (l1 l2 : list A) :
  StronglySorted R l1 -> StronglySorted R l2 ->
  (forall d, dated key d l1 = dated key d l2) -> l1 = l2.
Proof.
  intros H1. revert l2. induction H1 as [|x l1 Hs1 IH Hall1]; intros l2 H2 Hd.
  - destruct l2 as [|y l2]; [done|]. specialize (Hd (key y)).
    unfold dated in Hd. simpl in Hd. by rewrite Z.eqb_refl in Hd.
  - destruct H2 as [|y l2 Hs2 Hall2].
    + specialize (Hd (key x)). unfold dated in Hd. simpl in Hd.
      by rewrite Z.eqb_refl in Hd.
    + assert (Hin : forall (a b : list A) z, dated key (key z) a = dated key (key z) b ->
                In z a -> In z b).
      { intros a b z Hab Hz.
        assert (Hza : In z (dated key (key z) a))
          by (apply filter_In; split; [done|apply Z.eqb_refl]).
        rewrite Hab in Hza. by apply filter_In in Hza as [? _]. }
      rewrite Forall_forall in Hall1, Hall2.
      assert (Hxy : key x = key y).
      { apply Z.le_antisymm.
        - destruct (Hin (x :: l1) (y :: l2) x (Hd (key x))) as [->|Hx]; [by left|done|].
          apply Hall2. by apply list_elem_of_In.
        - destruct (Hin (y :: l2) (x :: l1) y (eq_sym (Hd (key y)))) as [->|Hy];
            [by left|done|].
          apply Hall1. by apply list_elem_of_In. }
      pose proof (Hd (key x)) as Hhead. unfold dated in Hhead. simpl in Hhead.
      rewrite <- Hxy, Z.eqb_refl in Hhead. injection Hhead as <- _.
      f_equal. apply IH; [done|]. intros d. specialize (Hd d).
      unfold dated in *. simpl in Hd. destruct (key x =? d); [by injection Hd|done].
Qed.

(** Any procedure that returns the array sorted by descending key with the
    elements of equal key in input order returns what [Array_sort]
    returns. *)
Lemma Array_sort_unique (a out : list A) :
  StronglySorted R out -> (forall d, dated key d out = dated key d a) ->
  out = Array_sort comparefn a.
Proof.
  intros Hs Hd. apply sorted_dated_unique; [done|apply Array_sort_sorted|].
  intros d. by rewrite Array_sort_stable.
Qed.

Lemma sorted_non_increasing (l : list A) : StronglySorted R l -> non_increasing key l.
Proof.
  induction 1 as [|x l Hs IH Hall]; intros i a b Ha Hb; [done|].
  destruct i as [|i]; simpl in *.
  - injection Ha as <-. rewrite Forall_forall in Hall.
    apply Hall. eapply list_elem_of_lookup_2; eauto.
  - eapply IH; eauto.
Qed.

Lemma Array_sort_non_increasing (a : list A) :
  non_increasing key (Array_sort comparefn a).
Proof. apply sorted_non_increasing, Array_sort_sorted. Qed.
End SortFacts.

(** ** The two stitching loops *)

Lemma setNext_kept s t e :
  Entry.slug (setNext s t e) = Entry.slug e /\
  Data.title (Entry.data (setNext s t e)) = Data.title (Entry.data e) /\
  publishedOf (setNext s t e) = publishedOf e /\
  withoutLinks (setNext s t e) = withoutLinks e.
Proof. by destruct e as [i sl []]. Qed.

Lemma setPrev_kept s t e :
  Entry.slug (setPrev s t e) = Entry.slug e /\
  Data.title (Entry.data (setPrev s t e)) = Data.title (Entry.data e) /\
  publishedOf (setPrev s t e) = publishedOf e /\
  withoutLinks (setPrev s t e) = withoutLinks e.
Proof. by destruct e as [i sl []]. Qed.

(** Every index the loops reach is inside the array, together with the
    neighbour it reads. *)
Lemma stitchNext_in_range (sorted : list Entry.t) (i : nat) :
  (1 <= i < length sorted)%nat ->
  is_Some (sorted !! i) /\ is_Some (sorted !! (i - 1)%nat).
Proof. intros H. split; apply lookup_lt_is_Some; lia. Qed.

Lemma stitchPrev_in_range (sorted : list Entry.t) (i : nat) :
  (i < length sorted - 1)%nat ->
  is_Some (sorted !! i) /\ is_Some (sorted !! (i + 1)%nat).
Proof. intros H. split; apply lookup_lt_is_Some; lia. Qed.

Lemma afterNext_kept a k j e :
  Entry.slug (afterNext a k j e) = Entry.slug e /\
  Data.title (Entry.data (afterNext a k j e)) = Data.title (Entry.data e).
Proof.
  unfold afterNext. destruct j; [done|]. case_decide; [|done].
  destruct (a !! j); [|done]. split; apply setNext_kept.
Qed.

Lemma stitchNext_loop (a : list Entry.t) (k : nat) :
  (k <= length a - 1)%nat ->
  foldl (fun s i => stitchNext i s) a (seq 1 k) = imap (afterNext a k) a.
Proof.
  induction k as [|k IH]; intros Hk.
  - simpl. apply list_eq. intros i. rewrite list_lookup_imap.
    destruct (a !! i) as [e|]; [|done]. cbn [fmap option_fmap option_map]. f_equal.
    unfold afterNext. destruct i; [done|]. case_decide; [lia|done].
  - rewrite seq_S, foldl_app, IH by lia. cbn [foldl Nat.add].
    destruct (lookup_lt_is_Some_2 a (S k)) as [cur Hcur]; [lia|].
    destruct (lookup_lt_is_Some_2 a k) as [before Hbefore]; [lia|].
    unfold stitchNext. replace (S k - 1)%nat with k by lia.
    rewrite !list_lookup_imap, Hcur, Hbefore. cbn [fmap option_fmap option_map].
    destruct (afterNext_kept a k k before) as [-> ->].
    replace (afterNext a k (S k) cur) with cur
      by (unfold afterNext; case_decide; [lia|done]).
    apply list_eq. intros i. destruct (decide (i = S k)) as [->|Hne].
    + rewrite list_lookup_insert_eq by (rewrite length_imap; lia).
      rewrite list_lookup_imap, Hcur. cbn [fmap option_fmap option_map]. f_equal.
      unfold afterNext. case_decide; [|lia]. by rewrite Hbefore.
    + rewrite list_lookup_insert_ne by done. rewrite !list_lookup_imap.
      destruct (a !! i) as [e|]; [|done]. cbn [fmap option_fmap option_map]. f_equal.
      unfold afterNext. destruct i; [done|]. repeat case_decide; (done || lia).
Qed.

Lemma stitchPrev_loop (b : list Entry.t) (k : nat) :
  (k <= length b - 1)%nat ->
  foldl (fun s i => stitchPrev i s) b (seq 0 k) = imap (afterPrev b k) b.
Proof.
  induction k as [|k IH]; intros Hk.
  - simpl. apply list_eq. intros i. rewrite list_lookup_imap.
    destruct (b !! i) as [e|]; [|done]. cbn [fmap option_fmap option_map].
    unfold afterPrev. case_decide; [lia|done].
  - rewrite seq_S, foldl_app, IH by lia. cbn [foldl Nat.add].
    destruct (lookup_lt_is_Some_2 b k) as [cur Hcur]; [lia|].
    destruct (lookup_lt_is_Some_2 b (S k)) as [after Hafter]; [lia|].
    unfold stitchPrev. replace (k + 1)%nat with (S k) by lia.
    rewrite !list_lookup_imap, Hcur, Hafter. cbn [fmap option_fmap option_map].
    replace (afterPrev b k k cur) with cur
      by (unfold afterPrev; case_decide; [lia|done]).
    replace (afterPrev b k (S k) after) with after
      by (unfold afterPrev; case_decide; [lia|done]).
    apply list_eq. intros i. destruct (decide (i = k)) as [->|Hne].
    + rewrite list_lookup_insert_eq by (rewrite length_imap; lia).
      rewrite list_lookup_imap, Hcur. cbn [fmap option_fmap option_map]. f_equal.
      unfold afterPrev. case_decide; [|lia]. by rewrite Hafter.
    + rewrite list_lookup_insert_ne by done. rewrite !list_lookup_imap.
      destruct (b !! i) as [e|]; [|done]. cbn [fmap option_fmap option_map]. f_equal.
      unfold afterPrev. repeat case_decide; (done || lia).
Qed.

(** The array [GetSortednotes] returns, position by position. *)
Lemma GetSortednotes_imap (PROD : bool) (store : list Entry.t) :
  GetSortednotes PROD store =
  imap (linked (getSortedNotes PROD store)) (getSortedNotes PROD store).
Proof.
  unfold GetSortednotes, getSortedNotes, for_loop.
  set (s := Array_sort byPublished (getCollection store (draftFilter PROD))).
  rewrite stitchNext_loop by lia.
  rewrite stitchPrev_loop by lia.
  rewrite length_imap. apply list_eq. intros j.
  rewrite !list_lookup_imap.
  destruct (s !! j) as [e|] eqn:Hj; [|done]. cbn [fmap option_fmap option_map]. f_equal.
  pose proof (lookup_lt_Some _ _ _ Hj) as Hlt.
  unfold afterPrev, linked. rewrite list_lookup_imap.
  assert (Hnext : afterNext s (length s - 1) j e =
    match j with
    | O => e
    | S j' =>
        match s !! j' with
        | Some before => setNext (Entry.slug before) (Data.title (Entry.data before)) e
        | None => e
        end
    end).
  { unfold afterNext. destruct j; [done|]. case_decide; [done|lia]. }
  rewrite Hnext. destruct (s !! S j) as [after|] eqn:Hafter; cbn [fmap option_fmap option_map].
  - pose proof (lookup_lt_Some _ _ _ Hafter).
    case_decide; [|lia].
    by destruct (afterNext_kept s (length s - 1) (S j) after) as [-> ->].
  - by case_decide.
Qed.

Lemma linked_kept s j e :
  Entry.slug (linked s j e) = Entry.slug e /\
  Data.title (Entry.data (linked s j e)) = Data.title (Entry.data e) /\
  publishedOf (linked s j e) = publishedOf e /\
  withoutLinks (linked s j e) = withoutLinks e.
Proof.
  unfold linked.
  set (e1 := match j with O => e | S j' => _ end).
  assert (H1 : Entry.slug e1 = Entry.slug e /\
    Data.title (Entry.data e1) = Data.title (Entry.data e) /\
    publishedOf e1 = publishedOf e /\ withoutLinks e1 = withoutLinks e).
  { subst e1. destruct j; [done|]. destruct (s !! j); [|done]. apply setNext_kept. }
  destruct H1 as (Ha & Hb & Hc & Hd).
  destruct (s !! S j) as [after|]; [|done].
  destruct (setPrev_kept (Entry.slug after) (Data.title (Entry.data after)) e1)
    as (-> & -> & -> & ->).
  done.
Qed.

Lemma GetSortednotes_lookup (PROD : bool) (store : list Entry.t) (j : nat) :
  GetSortednotes PROD store !! j =
  linked (getSortedNotes PROD store) j <$> getSortedNotes PROD store !! j.
Proof. by rewrite GetSortednotes_imap, list_lookup_imap. Qed.

Lemma GetSortednotes_length (PROD : bool) (store : list Entry.t) :
  length (GetSortednotes PROD store) = length (getSortedNotes PROD store).
Proof. by rewrite GetSortednotes_imap, length_imap. Qed.

(** ** Facts about the host Map *)

Section MapFacts.
Context {K V : Type} `{EqDecision K}.
Implicit Types (m : Map K V) (k : K) (v : V).

Lemma Map_get_set k k' v m :
  Map_get k (Map_set k' v m) = if decide (k = k') then Some v else Map_get k m.
Proof.
  induction m as [|[k0 v0] m IH]; simpl.
  - by destruct (decide (k = k')).
  - destruct (decide (k' = k0)) as [->|Hne]; simpl.
    + by destruct (decide (k = k0)).
    + rewrite IH. destruct (decide (k = k0)) as [->|]; [|done].
      by rewrite decide_False by done.
Qed.

Lemma Map_get_mutate k k' (f : V -> V) m :
  Map_get k (Map_mutate k' f m) =
  if decide (k = k') then f <$> Map_get k m else Map_get k m.
Proof.
  induction m as [|[k0 v0] m IH]; simpl.
  - by destruct (decide (k = k')).
  - destruct (decide (k' = k0)) as [->|Hne]; simpl.
    + by destruct (decide (k = k0)).
    + rewrite IH. destruct (decide (k = k0)) as [->|]; [|done].
      by rewrite decide_False by done.
Qed.

Lemma Map_keys_mutate k (f : V -> V) m : Map_keys (Map_mutate k f m) = Map_keys m.
Proof.
  unfold Map_keys. induction m as [|[k0 v0] m IH]; simpl; [done|].
  destruct (decide (k = k0)); simpl; by rewrite ?IH.
Qed.

Lemma Map_values_mutate_sum (size : V -> nat) k (f : V -> V) m :
  Map_has k m = true ->
  (forall v, size (f v) = S (size v)) ->
  sum_list (map size (Map_values (Map_mutate k f m))) =
  S (sum_list (map size (Map_values m))).
Proof.
  unfold Map_has, Map_values. intros Hhas Hf.
  induction m as [|[k0 v0] m IH]; simpl in *; [done|].
  destruct (decide (k = k0)); simpl.
  - by rewrite Hf.
  - rewrite IH by done. lia.
Qed.

Lemma Map_get_None k m : Map_get k m = None <-> k ∉ Map_keys m.
Proof.
  unfold Map_keys. induction m as [|[k0 v0] m IH]; simpl.
  - split; [intros _; apply not_elem_of_nil|done].
  - rewrite not_elem_of_cons. destruct (decide (k = k0)); [|tauto].
    split; [done|tauto].
Qed.

Lemma Map_has_keys k m : Map_has k m = true <-> k ∈ Map_keys m.
Proof.
  unfold Map_has. pose proof (Map_get_None k m) as Hn.
  destruct (Map_get k m).
  - split; [|done]. intros _. destruct (decide (k ∈ Map_keys m)); [done|].
    by apply Hn in n.
  - split; [done|]. intros Hin. by apply Hn in Hin.
Qed.

Lemma Map_set_fresh k v m : Map_has k m = false -> Map_set k v m = m ++ [(k, v)].
Proof.
  unfold Map_has. induction m as [|[k0 v0] m IH]; simpl; [done|].
  destruct (decide (k = k0)); [done|]. intros Hm. by rewrite IH.
Qed.

Lemma Map_get_elem k v m : NoDup (Map_keys m) -> (k, v) ∈ m <-> Map_get k m = Some v.
Proof.
  unfold Map_keys. induction m as [|[k0 v0] m IH]; simpl; intros Hnd.
  - split; [intros Hin; by apply elem_of_nil in Hin|done].
  - apply NoDup_cons in Hnd as [Hk0 Hnd]. rewrite elem_of_cons.
    destruct (decide (k = k0)) as [->|Hne].
    + split; [|intros [= ->]; by left].
      intros [[= ->]|Hin]; [done|]. exfalso. apply Hk0.
      apply list_elem_of_fmap. by exists (k0, v).
    + rewrite <- IH by done. split; [|tauto]. intros [[= -> ->]|Hin]; done.
Qed.

Lemma Map_new_from (acc entries : list (K * V)) :
  NoDup (map fst (acc ++ entries)) ->
  foldl (fun m kv => Map_set kv.1 kv.2 m) acc entries = acc ++ entries.
Proof.
  revert acc. induction entries as [|[k v] entries IH]; intros acc Hnd; simpl.
  - by rewrite app_nil_r.
  - rewrite Map_set_fresh.
    + rewrite IH; rewrite <- app_assoc; done.
    + destruct (Map_has k acc) eqn:E; [|done]. exfalso.
      apply Map_has_keys in E. unfold Map_keys in E.
      rewrite map_app in Hnd. apply NoDup_app in Hnd as (_ & Hdisj & _).
      apply (Hdisj k E). simpl. apply elem_of_cons. by left.
Qed.

Lemma Map_new_entries (entries : list (K * V)) :
  NoDup (map fst entries) -> Map_new entries = entries.
Proof. intros Hnd. unfold Map_new, Map_empty. by rewrite Map_new_from. Qed.
End MapFacts.

(** ** Facts about grouping *)

Section GroupingFacts.
Context {K V X : Type} `{EqDecision K}.
Variables (kf : X -> K) (v0 : X -> V) (pu : X -> V -> V).

Lemma upsert_get (m : Map K V) (x : X) (k : K) :
  Map_get k (upsert kf v0 pu m x) =
  if decide (k = kf x) then Some (pu x (default (v0 x) (Map_get k m)))
  else Map_get k m.
Proof.
  unfold upsert. rewrite Map_get_mutate.
  destruct (decide (k = kf x)) as [->|Hne].
  - unfold Map_has. destruct (Map_get (kf x) m) eqn:E; simpl.
    + by rewrite E.
    + by rewrite Map_get_set, decide_True.
  - destruct (negb (Map_has (kf x) m)); [|done].
    by rewrite Map_get_set, decide_False.
Qed.

Lemma upsert_keys (m : Map K V) (x : X) :
  Map_keys (upsert kf v0 pu m x) =
  if Map_has (kf x) m then Map_keys m else Map_keys m ++ [kf x].
Proof.
  unfold upsert. rewrite Map_keys_mutate.
  destruct (Map_has (kf x) m) eqn:E; simpl; [done|].
  rewrite Map_set_fresh by done. unfold Map_keys. by rewrite map_app.
Qed.

Lemma upsert_keys_NoDup (m : Map K V) (x : X) :
  NoDup (Map_keys m) -> NoDup (Map_keys (upsert kf v0 pu m x)).
Proof.
  intros Hnd. rewrite upsert_keys. destruct (Map_has (kf x) m) eqn:E; [done|].
  apply NoDup_app. split; [done|]. split; [|apply NoDup_singleton].
  intros k Hk Hx. apply list_elem_of_singleton in Hx as ->.
  apply Map_has_keys in Hk. congruence.
Qed.

Lemma grouped_snoc (xs : list X) (x : X) :
  grouped kf v0 pu (xs ++ [x]) = upsert kf v0 pu (grouped kf v0 pu xs) x.
Proof. unfold grouped. by rewrite foldl_app. Qed.

Lemma grouped_keys_NoDup (xs : list X) : NoDup (Map_keys (grouped kf v0 pu xs)).
Proof.
  induction xs as [|x xs IH] using rev_ind.
  - apply NoDup_nil_2.
  - rewrite grouped_snoc. by apply upsert_keys_NoDup.
Qed.

Lemma grouped_get (k : K) (xs : list X) :
  Map_get k (grouped kf v0 pu xs) = groupOf kf v0 pu k xs.
Proof.
  induction xs as [|x xs IH] using rev_ind; [done|].
  rewrite grouped_snoc, upsert_get, IH. unfold groupOf.
  rewrite List.filter_app. simpl.
  destruct (decide (k = kf x)) as [->|Hne].
  - rewrite bool_decide_eq_true_2 by done.
    destruct (List.filter _ xs) as [|y rest]; simpl; [done|].
    by rewrite foldl_app.
  - rewrite bool_decide_eq_false_2 by done. by rewrite app_nil_r.
Qed.

Lemma groupOf_is_Some (k : K) (xs : list X) :
  is_Some (groupOf kf v0 pu k xs) <-> exists x, x ∈ xs /\ kf x = k.
Proof.
  unfold groupOf. destruct (List.filter _ xs) as [|y rest] eqn:E.
  - split; [intros [? ?]; done|]. intros (x & Hx & Hk). exfalso.
    assert (Hin : In x (List.filter (fun x => bool_decide (kf x = k)) xs)).
    { apply filter_In. split; [by apply list_elem_of_In|].
      by apply bool_decide_eq_true_2. }
    by rewrite E in Hin.
  - split; [|by eexists]. intros _. exists y.
    assert (Hin : In y (List.filter (fun x => bool_decide (kf x = k)) xs))
      by (rewrite E; by left).
    apply filter_In in Hin as [Hin Hk]. split; [by apply list_elem_of_In|].
    by apply bool_decide_eq_true_1 in Hk.
Qed.

Lemma grouped_keys_elem (k : K) (xs : list X) :
  k ∈ Map_keys (grouped kf v0 pu xs) <-> exists x, x ∈ xs /\ kf x = k.
Proof.
  rewrite <- groupOf_is_Some, <- grouped_get.
  pose proof (Map_get_None k (grouped kf v0 pu xs)) as Hn.
  destruct (Map_get k (grouped kf v0 pu xs)) eqn:E.
  - split; [by eexists|]. intros _.
    destruct (decide (k ∈ Map_keys (grouped kf v0 pu xs))); [done|].
    apply Hn in n. done.
  - split; [|intros [? ?]; done]. intros Hin. exfalso. by apply Hn.
Qed.
End GroupingFacts.

(** ** The chronological sequence *)

Lemma byPublished_desc (x y : Entry.t) :
  (byPublished x y <? 0) = (publishedOf x >? publishedOf y).
Proof.
  unfold byPublished, publishedOf, new_Date.
  by destruct (Data.published (Entry.data x) >? Data.published (Entry.data y)).
Qed.

Lemma byDate_desc (x y : Notes.t) : (byDate x y <? 0) = (Notes.date x >? Notes.date y).
Proof. unfold byDate. by destruct (Notes.date x >? Notes.date y). Qed.

Lemma byYearDesc_desc (x y : Z * list Notes.t) : (byYearDesc x y <? 0) = (x.1 >? y.1).
Proof. unfold byYearDesc. lia. Qed.

Lemma getCollection_elem (store : list Entry.t) (f : Entry.t -> bool) (e : Entry.t) :
  e ∈ getCollection store f <-> e ∈ store /\ f e = true.
Proof. unfold getCollection. rewrite !list_elem_of_In. apply filter_In. Qed.

Lemma getSortedNotes_elem (PROD : bool) (store : list Entry.t) (e : Entry.t) :
  e ∈ getSortedNotes PROD store <-> e ∈ getCollection store (draftFilter PROD).
Proof.
  unfold getSortedNotes.
  by rewrite (Array_sort_perm publishedOf byPublished byPublished_desc).
Qed.

Lemma getSortedNotes_noLinks (PROD : bool) (store : list Entry.t) (j : nat) (e : Entry.t) :
  Forall noLinks store -> getSortedNotes PROD store !! j = Some e -> noLinks e.
Proof.
  intros Hall Hj. rewrite Forall_forall in Hall. apply Hall.
  apply list_elem_of_lookup_2 in Hj. apply getSortedNotes_elem in Hj.
  by apply getCollection_elem in Hj as [? _].
Qed.

Lemma linked_next (s : list Entry.t) (j : nat) (e : Entry.t) :
  (Data.nextSlug (Entry.data (linked s j e)), Data.nextTitle (Entry.data (linked s j e))) =
  match j with
  | O => (Data.nextSlug (Entry.data e), Data.nextTitle (Entry.data e))
  | S j' =>
      match s !! j' with
      | Some before => (Some (Entry.slug before), Some (Data.title (Entry.data before)))
      | None => (Data.nextSlug (Entry.data e), Data.nextTitle (Entry.data e))
      end
  end.
Proof.
  unfold linked. destruct j as [|j].
  - by destruct (s !! 1%nat).
  - destruct (s !! j); by destruct (s !! S (S j)).
Qed.

Lemma linked_prev (s : list Entry.t) (j : nat) (e : Entry.t) :
  (Data.prevSlug (Entry.data (linked s j e)), Data.prevTitle (Entry.data (linked s j e))) =
  match s !! S j with
  | Some after => (Some (Entry.slug after), Some (Data.title (Entry.data after)))
  | None => (Data.prevSlug (Entry.data e), Data.prevTitle (Entry.data e))
  end.
Proof.
  unfold linked. destruct (s !! S j); [done|].
  destruct j as [|j]; [done|]. by destruct (s !! j).
Qed.

(** An element that has a predecessor points to it with its next links. *)
Lemma GetSortednotes_next (PROD : bool) (store : list Entry.t) (i : nat) (e p : Entry.t) :
  GetSortednotes PROD store !! S i = Some e ->
  GetSortednotes PROD store !! i = Some p ->
  Data.nextSlug (Entry.data e) = Some (Entry.slug p) /\
  Data.nextTitle (Entry.data e) = Some (Data.title (Entry.data p)).
Proof.
  rewrite !GetSortednotes_lookup. intros He Hp.
  destruct (getSortedNotes PROD store !! S i) as [e0|] eqn:E0; [|done].
  destruct (getSortedNotes PROD store !! i) as [p0|] eqn:P0; [|done].
  simpl in He, Hp. injection He as <-. injection Hp as <-.
  pose proof (linked_next (getSortedNotes PROD store) (S i) e0) as Hn.
  cbv beta iota in Hn. rewrite P0 in Hn. injection Hn as -> ->.
  by destruct (linked_kept (getSortedNotes PROD store) i p0) as (-> & -> & _).
Qed.

(** An element that has a successor points to it with its prev links. *)
Lemma GetSortednotes_prev (PROD : bool) (store : list Entry.t) (i : nat) (e n : Entry.t) :
  GetSortednotes PROD store !! i = Some e ->
  GetSortednotes PROD store !! S i = Some n ->
  Data.prevSlug (Entry.data e) = Some (Entry.slug n) /\
  Data.prevTitle (Entry.data e) = Some (Data.title (Entry.data n)).
Proof.
  rewrite !GetSortednotes_lookup. intros He Hn.
  destruct (getSortedNotes PROD store !! i) as [e0|] eqn:E0; [|done].
  destruct (getSortedNotes PROD store !! S i) as [n0|] eqn:N0; [|done].
  simpl in He, Hn. injection He as <-. injection Hn as <-.
  pose proof (linked_prev (getSortedNotes PROD store) i e0) as Hp.
  rewrite N0 in Hp. injection Hp as -> ->.
  by destruct (linked_kept (getSortedNotes PROD store) (S i) n0) as (-> & -> & _).
Qed.

(** The element at position 0 keeps the next links it came with. *)
Lemma GetSortednotes_first_next (PROD : bool) (store : list Entry.t) (e : Entry.t) :
  Forall noLinks store ->
  GetSortednotes PROD store !! 0%nat = Some e ->
  Data.nextSlug (Entry.data e) = None /\ Data.nextTitle (Entry.data e) = None.
Proof.
  intros Hall. rewrite GetSortednotes_lookup. intros He.
  destruct (getSortedNotes PROD store !! 0%nat) as [e0|] eqn:E0; [|done].
  simpl in He. injection He as <-.
  pose proof (linked_next (getSortedNotes PROD store) 0 e0) as Hn.
  cbv beta iota in Hn. injection Hn as -> ->.
  destruct (getSortedNotes_noLinks PROD store 0 e0 Hall E0) as (? & ? & _). done.
Qed.

(** The element at the last position keeps the prev links it came with. *)
Lemma GetSortednotes_last_prev (PROD : bool) (store : list Entry.t) (e : Entry.t) :
  Forall noLinks store ->
  GetSortednotes PROD store !! (length (GetSortednotes PROD store) - 1)%nat = Some e ->
  Data.prevSlug (Entry.data e) = None /\ Data.prevTitle (Entry.data e) = None.
Proof.
  intros Hall. rewrite GetSortednotes_length, GetSortednotes_lookup. intros He.
  set (s := getSortedNotes PROD store) in *.
  destruct (s !! (length s - 1)%nat) as [e0|] eqn:E0; [|done].
  simpl in He. injection He as <-.
  pose proof (linked_prev s (length s - 1) e0) as Hp.
  pose proof (lookup_lt_Some _ _ _ E0) as Hlt.
  rewrite (lookup_ge_None_2 s (S (length s - 1))) in Hp by lia.
  injection Hp as -> ->.
  destruct (getSortedNotes_noLinks PROD store _ e0 Hall E0) as (_ & _ & ? & ?). done.
Qed.

Lemma GetSortednotes_withoutLinks (PROD : bool) (store : list Entry.t) :
  map withoutLinks (GetSortednotes PROD store) =
  map withoutLinks (getSortedNotes PROD store).
Proof.
  apply list_eq. intros j.
  change ((withoutLinks <$> GetSortednotes PROD store) !! j
          = (withoutLinks <$> getSortedNotes PROD store) !! j).
  rewrite !list_lookup_fmap, GetSortednotes_lookup.
  destruct (getSortedNotes PROD store !! j) as [e|]; [|done]. simpl.
  by destruct (linked_kept (getSortedNotes PROD store) j e) as (_ & _ & _ & ->).
Qed.

Lemma GetSortednotes_published (PROD : bool) (store : list Entry.t) :
  map publishedOf (GetSortednotes PROD store) =
  map publishedOf (getSortedNotes PROD store).
Proof.
  apply list_eq. intros j.
  change ((publishedOf <$> GetSortednotes PROD store) !! j
          = (publishedOf <$> getSortedNotes PROD store) !! j).
  rewrite !list_lookup_fmap, GetSortednotes_lookup.
  destruct (getSortedNotes PROD store !! j) as [e|]; [|done]. simpl.
  by destruct (linked_kept (getSortedNotes PROD store) j e) as (_ & _ & -> & _).
Qed.

Lemma dated_withoutLinks (d : Z) (l : list Entry.t) :
  dated publishedOf d (map withoutLinks l) = map withoutLinks (dated publishedOf d l).
Proof.
  unfold dated. induction l as [|e l IH]; simpl; [done|].
  change (publishedOf (withoutLinks e)) with (publishedOf e).
  destruct (publishedOf e =? d); simpl; by rewrite IH.
Qed.

Lemma non_increasing_map {A B : Type} (key : A -> Z) (key' : B -> Z)
    (l : list A) (l' : list B) :
  map key l = map key' l' -> non_increasing key' l' -> non_increasing key l.
Proof.
  intros Hmap Hl' i x y Hx Hy.
  assert (Hlk : forall j z, l !! j = Some z -> exists z', l' !! j = Some z' /\ key' z' = key z).
  { intros j z Hz.
    assert (Hj : (key <$> l) !! j = Some (key z)) by (by rewrite list_lookup_fmap, Hz).
    change (key <$> l) with (map key l) in Hj. rewrite Hmap in Hj.
    change (map key' l') with (key' <$> l') in Hj.
    rewrite list_lookup_fmap in Hj. destruct (l' !! j) as [z'|]; [|done].
    simpl in Hj. injection Hj as Hj. by exists z'. }
  destruct (Hlk _ _ Hx) as (x' & Hx' & <-).
  destruct (Hlk _ _ Hy) as (y' & Hy' & <-).
  by apply (Hl' i).
Qed.

(** ** Filtering and the chronological sequence: the claims *)

(** C1. In production the filtering step keeps exactly the documents whose
    draft flag is not [true]: a document with the flag absent or [false]
    survives and one with [draft = true] is removed; outside production
    every document is kept, so that the filtered set is the document set
    itself. *)
Theorem FilterDocuments_exact (D : list Entry.t) :
  getCollection D (draftFilter true) =
    List.filter (fun d => bool_decide (Data.draft (Entry.data d) <> Some true)) D /\
  (forall d : Entry.t,
     d ∈ getCollection D (draftFilter true) <->
     d ∈ D /\ Data.draft (Entry.data d) <> Some true) /\
  getCollection D (draftFilter false) = D.
Proof.
  split; [|split].
  - unfold getCollection. apply filter_ext. intros d. unfold draftFilter, not_true.
    by destruct (Data.draft (Entry.data d)) as [[]|].
  - intros d. rewrite getCollection_elem. unfold draftFilter, not_true.
    destruct (Data.draft (Entry.data d)) as [[]|]; split; intros [? ?]; done.
  - unfold getCollection, draftFilter. induction D as [|d D IH]; simpl; [done|].
    by rewrite IH.
Qed.

Lemma FilterDocuments_exact_witness :
  docA ∈ getCollection sampleStore (draftFilter true) /\
  ¬ docD ∈ getCollection sampleStore (draftFilter true).
Proof.
  destruct (FilterDocuments_exact sampleStore) as (_ & H & _). split.
  - apply H. split; [|done]. apply elem_of_cons. by left.
  - intros Hin. apply H in Hin as [_ Hd]. by apply Hd.
Defined.

(** C2. The sequences returned by [GetSortednotes] and by [getSortedNotes]
    are sorted non-increasing by publication date: at every pair of
    adjacent positions [i] and [i+1] the published date at [i] is greater
    than or equal to the one at [i+1]. *)
Theorem chronological_non_increasing (PROD : bool) (store : list Entry.t)
    (i : nat) (x y : Entry.t) :
  (GetSortednotes PROD store !! i = Some x ->
   GetSortednotes PROD store !! S i = Some y ->
   Data.published (Entry.data x) >= Data.published (Entry.data y)) /\
  (getSortedNotes PROD store !! i = Some x ->
   getSortedNotes PROD store !! S i = Some y ->
   Data.published (Entry.data x) >= Data.published (Entry.data y)).
Proof.
  assert (Hs : non_increasing publishedOf (getSortedNotes PROD store))
    by apply (Array_sort_non_increasing publishedOf byPublished byPublished_desc).
  split; intros Hx Hy; apply Z.le_ge.
  - apply (non_increasing_map publishedOf publishedOf _ _
             (GetSortednotes_published PROD store) Hs i x y Hx Hy).
  - apply (Hs i x y Hx Hy).
Qed.

Lemma chronological_non_increasing_witness :
  Data.published (Entry.data docB) >= Data.published (Entry.data docA).
Proof.
  apply (proj2 (chronological_non_increasing true sampleStore 0 docB docA));
    reflexivity.
Defined.

(** C3. In the sequence returned by [GetSortednotes], every element at an
    index [i >= 1] has [nextSlug] and [nextTitle] equal to the slug and
    title of the element at [i-1]; every element at an index strictly before
    the last has [prevSlug] and [prevTitle] equal to the slug and title of
    the element at [i+1]; the link properties are otherwise absent: the
    element at index 0 has no next links and the element at the last index
    has no prev links (the collection delivers entries without link
    properties). *)
Theorem GetSortednotes_links (PROD : bool) (store : list Entry.t) :
  let out := GetSortednotes PROD store in
  (forall (i : nat) (e p : Entry.t),
     (i >= 1)%nat -> out !! i = Some e -> out !! (i - 1)%nat = Some p ->
     Data.nextSlug (Entry.data e) = Some (Entry.slug p) /\
     Data.nextTitle (Entry.data e) = Some (Data.title (Entry.data p))) /\
  (forall (i : nat) (e n : Entry.t),
     (i < length out - 1)%nat -> out !! i = Some e -> out !! (i + 1)%nat = Some n ->
     Data.prevSlug (Entry.data e) = Some (Entry.slug n) /\
     Data.prevTitle (Entry.data e) = Some (Data.title (Entry.data n))) /\
  (Forall noLinks store ->
   (forall e : Entry.t, out !! 0%nat = Some e ->
      Data.nextSlug (Entry.data e) = None /\ Data.nextTitle (Entry.data e) = None) /\
   (forall e : Entry.t, out !! (length out - 1)%nat = Some e ->
      Data.prevSlug (Entry.data e) = None /\ Data.prevTitle (Entry.data e) = None)).
Proof.
  intros out. split; [|split].
  - intros [|i] e p Hi He Hp; [lia|].
    replace (S i - 1)%nat with i in Hp by lia.
    by apply (GetSortednotes_next PROD store i).
  - intros i e n _ He Hn. replace (i + 1)%nat with (S i) in Hn by lia.
    by apply (GetSortednotes_prev PROD store i).
  - intros Hall. split; intros e He.
    + by apply (GetSortednotes_first_next PROD store).
    + by apply (GetSortednotes_last_prev PROD store).
Qed.

Lemma GetSortednotes_links_witness :
  exists b a e c : Entry.t,
    GetSortednotes true sampleStore = [b; a; e; c] /\
    (Data.nextSlug (Entry.data a) = Some (Entry.slug b) /\
     Data.nextTitle (Entry.data a) = Some (Data.title (Entry.data b))) /\
    (Data.prevSlug (Entry.data a) = Some (Entry.slug e) /\
     Data.prevTitle (Entry.data a) = Some (Data.title (Entry.data e))) /\
    (Data.nextSlug (Entry.data b) = None /\ Data.nextTitle (Entry.data b) = None) /\
    (Data.prevSlug (Entry.data c) = None /\ Data.prevTitle (Entry.data c) = None).
Proof.
  destruct (GetSortednotes_links true sampleStore) as (Hnext & Hprev & Habsent).
  destruct Habsent as (Hfirst & Hlast); [repeat constructor|].
  eexists _, _, _, _. split; [reflexivity|].
  split; [|split; [|split]].
  - apply (Hnext 1%nat); [lia|reflexivity|reflexivity].
  - apply (Hprev 1%nat); [simpl; lia|reflexivity|reflexivity].
  - apply Hfirst. reflexivity.
  - apply Hlast. reflexivity.
Defined.

(** C4, as the code has it.  In the sequence returned by [GetSortednotes]
    the first element carries no next links and the last element carries no
    prev links. *)
Theorem GetSortednotes_boundaries (PROD : bool) (store : list Entry.t) :
  Forall noLinks store ->
  (forall e : Entry.t, head (GetSortednotes PROD store) = Some e ->
     Data.nextSlug (Entry.data e) = None /\ Data.nextTitle (Entry.data e) = None) /\
  (forall e : Entry.t, last (GetSortednotes PROD store) = Some e ->
     Data.prevSlug (Entry.data e) = None /\ Data.prevTitle (Entry.data e) = None).
Proof.
  intros Hall. split; intros e He.
  - rewrite head_lookup in He. by apply (GetSortednotes_first_next PROD store).
  - rewrite last_lookup in He.
    replace (Nat.pred (length (GetSortednotes PROD store)))
      with (length (GetSortednotes PROD store) - 1)%nat in He by lia.
    by apply (GetSortednotes_last_prev PROD store).
Qed.

Lemma GetSortednotes_boundaries_witness :
  exists first final : Entry.t,
    head (GetSortednotes true sampleStore) = Some first /\
    last (GetSortednotes true sampleStore) = Some final /\
    Data.nextSlug (Entry.data first) = None /\
    Data.prevSlug (Entry.data final) = None.
Proof.
  destruct (GetSortednotes_boundaries true sampleStore) as (Hfirst & Hlast);
    [repeat constructor|].
  eexists _, _. split; [reflexivity|]. split; [reflexivity|]. split.
  - apply Hfirst. reflexivity.
  - apply Hlast. reflexivity.
Defined.

(** C4, as the specification states it, fails: with two documents the first
    element of the sequence carries prev links (and the last one carries
    next links). *)
Lemma first_carries_prev_links :
  ~ (forall (PROD : bool) (store : list Entry.t),
       Forall noLinks store ->
       (forall e : Entry.t, head (GetSortednotes PROD store) = Some e ->
          Data.prevSlug (Entry.data e) = None /\ Data.prevTitle (Entry.data e) = None) /\
       (forall e : Entry.t, last (GetSortednotes PROD store) = Some e ->
          Data.nextSlug (Entry.data e) = None /\ Data.nextTitle (Entry.data e) = None)).
Proof.
  intros H.
  destruct (H true [docA; docB]) as [Hfirst _]; [repeat constructor|].
  destruct (Hfirst _ eq_refl) as [Hslug _]. discriminate Hslug.
Qed.

(** ** Folds *)

Lemma foldl_flat_map {A B C : Type} (f : A -> C -> A) (g : B -> list C) (a : A) (l : list B) :
  foldl f a (flat_map g l) = foldl (fun a x => foldl f a (g x)) a l.
Proof.
  revert a. induction l as [|x l IH]; intros a; simpl; [done|].
  by rewrite foldl_app, IH.
Qed.

Lemma foldl_map {A B C : Type} (f : A -> C -> A) (h : B -> C) (a : A) (l : list B) :
  foldl f a (map h l) = foldl (fun a x => f a (h x)) a l.
Proof. revert a. induction l as [|x l IH]; intros a; simpl; [done|]. by rewrite IH. Qed.

Lemma foldl_ext {A B : Type} (f g : A -> B -> A) (a : A) (l : list B) :
  (forall a x, f a x = g a x) -> foldl f a l = foldl g a l.
Proof.
  intros Hfg. revert a. induction l as [|x l IH]; intros a; simpl; [done|].
  by rewrite Hfg, IH.
Qed.

Section GroupingTotals.
Context {K V X : Type} `{EqDecision K}.
Variables (kf : X -> K) (v0 : X -> V) (pu : X -> V -> V) (size : V -> nat).
Hypothesis size_new : forall x, size (v0 x) = 0%nat.
Hypothesis size_push : forall x v, size (pu x v) = S (size v).

Lemma upsert_total (m : Map K V) (x : X) :
  sum_list (map size (Map_values (upsert kf v0 pu m x))) =
  S (sum_list (map size (Map_values m))).
Proof.
  unfold upsert. destruct (Map_has (kf x) m) eqn:E; simpl.
  - by apply Map_values_mutate_sum.
  - rewrite Map_values_mutate_sum.
    + rewrite Map_set_fresh by done. unfold Map_values.
      rewrite !map_app, sum_list_with_app. simpl. rewrite size_new. unfold id. lia.
    + unfold Map_has. by rewrite Map_get_set, decide_True.
    + exact (size_push x).
Qed.

Lemma grouped_total (xs : list X) :
  sum_list (map size (Map_values (grouped kf v0 pu xs))) = length xs.
Proof.
  induction xs as [|x xs IH] using rev_ind; [done|].
  rewrite grouped_snoc, upsert_total, IH, length_app. simpl. lia.
Qed.
End GroupingTotals.

(** ** The three indexes as groupings *)

Section IndexFacts.
Variable IdToSlug : string -> string.
Variable getFullYear : Date -> Z.

Local Abbreviation noteOf := (noteOf IdToSlug).
Local Abbreviation yearOf := (yearOf getFullYear).

Lemma foldl_yearPush (acc : list Notes.t) (l : list Entry.t) :
  foldl (fun v y => yearPush IdToSlug y v) acc l = acc ++ map noteOf l.
Proof.
  revert acc. induction l as [|x l IH]; intros acc; simpl.
  - by rewrite app_nil_r.
  - rewrite IH. unfold yearPush. by rewrite <- app_assoc.
Qed.

Lemma notes_grouped (coll : list Entry.t) :
  foldl (addToYear IdToSlug getFullYear) Map_empty coll =
  grouped yearOf (fun _ => []) (yearPush IdToSlug) coll.
Proof. reflexivity. Qed.

Lemma notes_get (y : Z) (coll : list Entry.t) (bucket : list Notes.t) :
  Map_get y (grouped yearOf (fun _ => []) (yearPush IdToSlug) coll) = Some bucket ->
  bucket = yearBucket IdToSlug getFullYear y coll /\ exists e, e ∈ coll /\ yearOf e = y.
Proof.
  rewrite grouped_get. intros Hg. split.
  - unfold groupOf in Hg. unfold yearBucket.
    destruct (List.filter _ coll) as [|x rest]; [done|].
    injection Hg as <-. by rewrite foldl_yearPush.
  - apply (groupOf_is_Some yearOf (fun _ => []) (yearPush IdToSlug)). by eexists.
Qed.

Lemma GetNotes_sorted_entries (PROD : bool) (store : list Entry.t) :
  GetNotes IdToSlug getFullYear PROD store =
  map (fun kv => (kv.1, Array_sort byDate kv.2))
    (Array_sort byYearDesc
       (grouped yearOf (fun _ => []) (yearPush IdToSlug)
          (getCollection store (draftFilter PROD)))).
Proof.
  unfold GetNotes, Map_forEach_mutate, Map_entries. rewrite notes_grouped.
  rewrite Map_new_entries; [done|].
  rewrite (Array_sort_perm fst byYearDesc byYearDesc_desc).
  apply grouped_keys_NoDup.
Qed.

Lemma GetNotes_keys (PROD : bool) (store : list Entry.t) :
  Map_keys (GetNotes IdToSlug getFullYear PROD store) =
  map fst (Array_sort byYearDesc
       (grouped yearOf (fun _ => []) (yearPush IdToSlug)
          (getCollection store (draftFilter PROD)))).
Proof.
  rewrite GetNotes_sorted_entries. unfold Map_keys. rewrite map_map.
  by apply map_ext.
Qed.

Lemma GetNotes_bucket (PROD : bool) (store : list Entry.t) (y : Z) (bucket : list Notes.t) :
  (y, bucket) ∈ GetNotes IdToSlug getFullYear PROD store ->
  bucket = Array_sort byDate
             (yearBucket IdToSlug getFullYear y (getCollection store (draftFilter PROD))).
Proof.
  rewrite GetNotes_sorted_entries. intros Hin.
  apply list_elem_of_fmap in Hin as ([y0 b0] & Heq & Hin). simpl in Heq.
  injection Heq as -> ->.
  rewrite (Array_sort_perm fst byYearDesc byYearDesc_desc) in Hin.
  apply Map_get_elem in Hin; [|apply grouped_keys_NoDup].
  apply notes_get in Hin as [-> _]. done.
Qed.

Lemma strictly_descending_keys {A : Type} (key : A -> Z) (l : list A) :
  non_increasing key l -> NoDup (map key l) -> strictly_descending (map key l).
Proof.
  intros Hni Hnd i x y Hx Hy.
  change (map key l) with (key <$> l) in *.
  rewrite list_lookup_fmap in Hx, Hy.
  destruct (l !! i) as [a|] eqn:Ha; [|done].
  destruct (l !! S i) as [b|] eqn:Hb; [|done].
  simpl in Hx, Hy. injection Hx as <-. injection Hy as <-.
  pose proof (Hni i a b Ha Hb) as Hle.
  destruct (decide (key a = key b)) as [Heq|Hne]; [|lia]. exfalso.
  assert (Hi : (key <$> l) !! i = Some (key a)) by (by rewrite list_lookup_fmap, Ha).
  assert (Hj : (key <$> l) !! S i = Some (key a))
    by (by rewrite list_lookup_fmap, Hb, Heq).
  pose proof (NoDup_lookup _ _ _ _ Hnd Hi Hj). lia.
Qed.

(** [GetTags] *)

Lemma addTags_upsert (tags : Map string Tag.t) (note : Entry.t) :
  addTags IdToSlug tags note =
  foldl (upsert (tagKey IdToSlug) (tagNew IdToSlug) (tagPush IdToSlug)) tags
    (map (pair note) (default [] (Data.tags (Entry.data note)))).
Proof.
  unfold addTags. destruct (Data.tags (Entry.data note)) as [ts|]; [|done].
  simpl. by rewrite foldl_map.
Qed.

Lemma GetTags_grouped (PROD : bool) (store : list Entry.t) :
  GetTags IdToSlug PROD store =
  grouped (tagKey IdToSlug) (tagNew IdToSlug) (tagPush IdToSlug)
    (tagPairs (getCollection store (draftFilter PROD))).
Proof.
  unfold GetTags, grouped, tagPairs. rewrite foldl_flat_map.
  apply foldl_ext. intros m note. apply addTags_upsert.
Qed.

Lemma foldl_tagPush (t : Tag.t) (l : list (Entry.t * string)) :
  foldl (fun v q => tagPush IdToSlug q v) t l =
  Tag.mk (Tag.name t) (Tag.slug t) (Tag.notes t ++ map (fun q => noteOf q.1) l).
Proof.
  revert t. induction l as [|q l IH]; intros t; simpl.
  - rewrite app_nil_r. by destruct t.
  - rewrite IH. simpl. by rewrite <- app_assoc.
Qed.

Lemma filter_head_true {A : Type} (P : A -> bool) (l : list A) (x : A) (rest : list A) :
  List.filter P l = x :: rest -> P x = true.
Proof.
  intros E. assert (Hin : In x (List.filter P l)) by (rewrite E; by left).
  by apply filter_In in Hin as [_ ?].
Qed.

Lemma GetTags_get (PROD : bool) (store : list Entry.t) (slug : string) :
  Map_get slug (GetTags IdToSlug PROD store) =
  tagRecord IdToSlug slug (tagPairs (getCollection store (draftFilter PROD))).
Proof.
  rewrite GetTags_grouped, grouped_get. unfold groupOf, tagRecord, tagKey.
  destruct (List.filter _ _) as [|p rest] eqn:E; [done|].
  apply filter_head_true in E. apply bool_decide_eq_true_1 in E.
  rewrite foldl_tagPush. simpl. by rewrite E.
Qed.

Lemma GetTags_keys_NoDup (PROD : bool) (store : list Entry.t) :
  NoDup (Map_keys (GetTags IdToSlug PROD store)).
Proof. rewrite GetTags_grouped. apply grouped_keys_NoDup. Qed.

Lemma GetTags_record (PROD : bool) (store : list Entry.t) (k : string) (r : Tag.t) :
  (k, r) ∈ GetTags IdToSlug PROD store ->
  k = IdToSlug (Tag.name r) /\ Tag.slug r = "/tags/" +:+ k.
Proof.
  intros Hin. apply Map_get_elem in Hin; [|apply GetTags_keys_NoDup].
  rewrite GetTags_get in Hin. unfold tagRecord in Hin.
  destruct (List.filter _ _) as [|p rest] eqn:E; [done|].
  apply filter_head_true in E. apply bool_decide_eq_true_1 in E.
  injection Hin as <-. simpl. by rewrite E.
Qed.

(** [GetCategories] *)

Lemma addToCategory_upsert (categories : Map string Category.t) (note : Entry.t) :
  addToCategory IdToSlug categories note =
  foldl (upsert (tagKey IdToSlug) (categoryNew IdToSlug) (categoryPush IdToSlug))
    categories
    (match Data.category (Entry.data note) with
     | Some c => if bool_decide (c = EmptyString) then [] else [(note, c)]
     | None => []
     end).
Proof.
  unfold addToCategory, falsy.
  destruct (Data.category (Entry.data note)) as [c|]; [|done].
  by destruct (bool_decide (c = EmptyString)).
Qed.

Lemma GetCategories_grouped (PROD : bool) (store : list Entry.t) :
  GetCategories IdToSlug PROD store =
  grouped (tagKey IdToSlug) (categoryNew IdToSlug) (categoryPush IdToSlug)
    (categoryPairs (getCollection store (draftFilter PROD))).
Proof.
  unfold GetCategories, grouped, categoryPairs. rewrite foldl_flat_map.
  apply foldl_ext. intros m note. apply addToCategory_upsert.
Qed.

Lemma foldl_categoryPush (c : Category.t) (l : list (Entry.t * string)) :
  foldl (fun v q => categoryPush IdToSlug q v) c l =
  Category.mk (Category.name c) (Category.slug c)
    (Category.notes c ++ map (fun q => noteOf q.1) l).
Proof.
  revert c. induction l as [|q l IH]; intros c; simpl.
  - rewrite app_nil_r. by destruct c.
  - rewrite IH. simpl. by rewrite <- app_assoc.
Qed.

Lemma GetCategories_get (PROD : bool) (store : list Entry.t) (slug : string) :
  Map_get slug (GetCategories IdToSlug PROD store) =
  categoryRecord IdToSlug slug (categoryPairs (getCollection store (draftFilter PROD))).
Proof.
  rewrite GetCategories_grouped, grouped_get. unfold groupOf, categoryRecord, tagKey.
  destruct (List.filter _ _) as [|p rest] eqn:E; [done|].
  apply filter_head_true in E. apply bool_decide_eq_true_1 in E.
  rewrite foldl_categoryPush. simpl. by rewrite E.
Qed.

Lemma GetCategories_keys_NoDup (PROD : bool) (store : list Entry.t) :
  NoDup (Map_keys (GetCategories IdToSlug PROD store)).
Proof. rewrite GetCategories_grouped. apply grouped_keys_NoDup. Qed.

Lemma GetCategories_record (PROD : bool) (store : list Entry.t) (k : string)
    (r : Category.t) :
  (k, r) ∈ GetCategories IdToSlug PROD store ->
  k = IdToSlug (Category.name r) /\ Category.slug r = "/categories/" +:+ k.
Proof.
  intros Hin. apply Map_get_elem in Hin; [|apply GetCategories_keys_NoDup].
  rewrite GetCategories_get in Hin. unfold categoryRecord in Hin.
  destruct (List.filter _ _) as [|p rest] eqn:E; [done|].
  apply filter_head_true in E. apply bool_decide_eq_true_1 in E.
  injection Hin as <-. simpl. by rewrite E.
Qed.

Lemma category_contributions (slug : string) (coll : list Entry.t) :
  map (fun q : Entry.t * string => noteOf q.1)
    (List.filter (fun p => bool_decide (IdToSlug p.2 = slug)) (categoryPairs coll)) =
  flat_map (contribution IdToSlug slug) coll.
Proof.
  unfold categoryPairs. induction coll as [|d coll IH]; simpl; [done|].
  rewrite List.filter_app, map_app, IH. f_equal.
  unfold contribution. destruct (Data.category (Entry.data d)) as [c|]; [|done].
  destruct (bool_decide (c = EmptyString)); [done|]. simpl.
  by destruct (bool_decide (IdToSlug c = slug)).
Qed.

Lemma tagPairs_length (coll : list Entry.t) :
  length (tagPairs coll) =
  sum_list (map (fun e => length (default [] (Data.tags (Entry.data e)))) coll).
Proof.
  unfold tagPairs. induction coll as [|d coll IH]; simpl; [done|].
  by rewrite length_app, length_map, IH.
Qed.

(** ** The indexes and the stability of the sorts: the claims *)

(** C5. In every sorted sequence the program produces, the elements with
    equal publication dates appear in their original source order: for
    every date [d], the elements dated [d] of the chronological sequence of
    [getSortedNotes] and of [GetSortednotes] (link properties aside) are the
    elements dated [d] of the filtered collection in collection order, and
    the entries dated [d] of every per-year bucket of [GetNotes] are the
    entries dated [d] of the documents of that year in collection order. *)
Theorem sorts_keep_source_order (PROD : bool) (store : list Entry.t) :
  let coll := getCollection store (draftFilter PROD) in
  (forall d : Date,
     dated publishedOf d (getSortedNotes PROD store) = dated publishedOf d coll) /\
  (forall d : Date,
     dated publishedOf d (map withoutLinks (GetSortednotes PROD store)) =
     dated publishedOf d (map withoutLinks coll)) /\
  (forall (y : Z) (bucket : list Notes.t) (d : Date),
     (y, bucket) ∈ GetNotes IdToSlug getFullYear PROD store ->
     dated Notes.date d bucket =
     dated Notes.date d (yearBucket IdToSlug getFullYear y coll)).
Proof.
  intros coll.
  assert (Hs : forall d,
    dated publishedOf d (getSortedNotes PROD store) = dated publishedOf d coll)
    by (intros d; apply (Array_sort_stable publishedOf byPublished byPublished_desc)).
  split; [exact Hs|]. split.
  - intros d. by rewrite GetSortednotes_withoutLinks, !dated_withoutLinks, Hs.
  - intros y bucket d Hin. apply GetNotes_bucket in Hin as ->.
    apply (Array_sort_stable Notes.date byDate byDate_desc).
Qed.

(** C6. The map returned by [GetNotes] has as keys exactly the publication
    years that occur in the filtered set, its keys iterate in strictly
    descending order, and every bucket is sorted non-increasing by date. *)
Theorem GetNotes_year_index (PROD : bool) (store : list Entry.t) :
  let coll := getCollection store (draftFilter PROD) in
  let m := GetNotes IdToSlug getFullYear PROD store in
  (forall y : Z,
     y ∈ Map_keys m <->
     exists e : Entry.t, e ∈ coll /\ getFullYear (Data.published (Entry.data e)) = y) /\
  strictly_descending (Map_keys m) /\
  (forall (y : Z) (bucket : list Notes.t),
     (y, bucket) ∈ m -> non_increasing Notes.date bucket).
Proof.
  intros coll m. subst m. split; [|split].
  - intros y. rewrite GetNotes_keys.
    change (map fst ?l) with (fst <$> l).
    rewrite (Array_sort_perm fst byYearDesc byYearDesc_desc).
    apply (grouped_keys_elem yearOf (fun _ => []) (yearPush IdToSlug)).
  - rewrite GetNotes_keys. apply strictly_descending_keys.
    + apply (Array_sort_non_increasing fst byYearDesc byYearDesc_desc).
    + change (map fst ?l) with (fst <$> l).
      rewrite (Array_sort_perm fst byYearDesc byYearDesc_desc).
      apply grouped_keys_NoDup.
  - intros y bucket Hin. apply GetNotes_bucket in Hin as ->.
    apply (Array_sort_non_increasing Notes.date byDate byDate_desc).
Qed.

(** C7. The lengths of the notes lists of all Tag records returned by
    [GetTags] add up to the number of (document, tag) pairs of the filtered
    set: the sum over its documents of the length of their tag list, a
    document without a tags property counting 0. *)
Theorem GetTags_entry_count (PROD : bool) (store : list Entry.t) :
  sum_list (map (fun t => length (Tag.notes t))
              (Map_values (GetTags IdToSlug PROD store))) =
  sum_list (map (fun e => match Data.tags (Entry.data e) with
                          | Some ts => length ts
                          | None => 0%nat
                          end)
              (getCollection store (draftFilter PROD))).
Proof.
  rewrite GetTags_grouped.
  rewrite (grouped_total (tagKey IdToSlug) (tagNew IdToSlug) (tagPush IdToSlug)
             (fun t => length (Tag.notes t))).
  - rewrite tagPairs_length. f_equal. apply map_ext. intros e.
    by destruct (Data.tags (Entry.data e)).
  - done.
  - intros x v. simpl. rewrite length_app. simpl. lia.
Qed.

(** C8. [GetTags] and [GetCategories] key their maps by [IdToSlug] of the
    name: no slug is the key of two records, every record is stored under
    the slug of its name, and the record found under a slug is the one the
    first name with that slug created (it keeps that spelling) holding the
    entries of every name with that slug, whatever its spelling. *)
Theorem indexes_keyed_by_slug (PROD : bool) (store : list Entry.t) :
  let coll := getCollection store (draftFilter PROD) in
  (NoDup (Map_keys (GetTags IdToSlug PROD store)) /\
   (forall (k : string) (r : Tag.t),
      (k, r) ∈ GetTags IdToSlug PROD store -> k = IdToSlug (Tag.name r)) /\
   (forall slug : string,
      Map_get slug (GetTags IdToSlug PROD store) =
      tagRecord IdToSlug slug (tagPairs coll))) /\
  (NoDup (Map_keys (GetCategories IdToSlug PROD store)) /\
   (forall (k : string) (r : Category.t),
      (k, r) ∈ GetCategories IdToSlug PROD store -> k = IdToSlug (Category.name r)) /\
   (forall slug : string,
      Map_get slug (GetCategories IdToSlug PROD store) =
      categoryRecord IdToSlug slug (categoryPairs coll))).
Proof.
  intros coll. split; (split; [|split]).
  - apply GetTags_keys_NoDup.
  - intros k r Hin. by apply GetTags_record in Hin as [? _].
  - intros slug. apply GetTags_get.
  - apply GetCategories_keys_NoDup.
  - intros k r Hin. by apply GetCategories_record in Hin as [? _].
  - intros slug. apply GetCategories_get.
Qed.

(** C9. In the map returned by [GetCategories] the notes kept under a slug
    are the contributions of the documents in collection order, where a
    document whose category is absent or empty contributes no entry to any
    record and a document with a non-empty category X contributes exactly
    one entry, to the record keyed by [IdToSlug X]. *)
Theorem GetCategories_contributions (PROD : bool) (store : list Entry.t) :
  (forall slug : string,
     categoryNotesAt slug (GetCategories IdToSlug PROD store) =
     flat_map (contribution IdToSlug slug) (getCollection store (draftFilter PROD))) /\
  (forall (d : Entry.t) (slug : string),
     falsy (Data.category (Entry.data d)) = true ->
     contribution IdToSlug slug d = []) /\
  (forall (d : Entry.t) (X : string),
     Data.category (Entry.data d) = Some X -> X <> EmptyString ->
     contribution IdToSlug (IdToSlug X) d = [noteOf d] /\
     forall slug : string, slug <> IdToSlug X -> contribution IdToSlug slug d = []).
Proof.
  split; [|split].
  - intros slug. unfold categoryNotesAt. rewrite GetCategories_get.
    rewrite <- category_contributions. unfold categoryRecord.
    by destruct (List.filter _ _).
  - intros d slug. unfold falsy, contribution.
    destruct (Data.category (Entry.data d)) as [c|]; [|done]. by intros ->.
  - intros d X HX Hne. unfold contribution. rewrite HX.
    rewrite bool_decide_eq_false_2 by done. split.
    + by rewrite bool_decide_eq_true_2.
    + intros slug Hslug. by rewrite bool_decide_eq_false_2.
Qed.

(** C10. The slug field of every Category record returned by
    [GetCategories] is "/categories/" followed by [IdToSlug] of the
    category name, that of every Tag record returned by [GetTags] is
    "/tags/" followed by [IdToSlug] of the tag name, and no path of the one
    form is a path of the other. *)
Theorem record_slug_paths (PROD : bool) (store : list Entry.t) :
  (forall (k : string) (r : Category.t),
     (k, r) ∈ GetCategories IdToSlug PROD store ->
     Category.slug r = "/categories/" +:+ IdToSlug (Category.name r)) /\
  (forall (k : string) (r : Tag.t),
     (k, r) ∈ GetTags IdToSlug PROD store ->
     Tag.slug r = "/tags/" +:+ IdToSlug (Tag.name r)) /\
  (forall x y : string, "/categories/" +:+ x <> "/tags/" +:+ y).
Proof.
  split; [|split].
  - intros k r Hin. by apply GetCategories_record in Hin as [<- ?].
  - intros k r Hin. by apply GetTags_record in Hin as [<- ?].
  - intros x y. simpl. discriminate.
Qed.

End IndexFacts.

(** ** The claims on the sample documents *)

Lemma sorts_keep_source_order_witness :
  map Notes.title
    (dated Notes.date 1704844800000
       (default [] (Map_get 2024 (GetNotes lowerSlug utcFullYear false sampleStore)))) =
  ["A"; "D"; "E"].
Proof.
  destruct (sorts_keep_source_order lowerSlug utcFullYear false sampleStore)
    as (_ & _ & Hbucket).
  rewrite (Hbucket 2024 _ 1704844800000).
  - vm_compute. reflexivity.
  - apply list_elem_of_In. vm_compute. left. reflexivity.
Defined.

Lemma GetNotes_year_index_witness :
  2023 ∈ Map_keys (GetNotes lowerSlug utcFullYear true sampleStore) /\
  non_increasing Notes.date
    (default [] (Map_get 2024 (GetNotes lowerSlug utcFullYear true sampleStore))).
Proof.
  destruct (GetNotes_year_index lowerSlug utcFullYear true sampleStore)
    as (Hkeys & _ & Hbuckets).
  split.
  - apply Hkeys. exists docC. split; [|vm_compute; reflexivity].
    apply list_elem_of_In. vm_compute. right. right. left. reflexivity.
  - apply (Hbuckets 2024). apply list_elem_of_In. vm_compute. left. reflexivity.
Defined.

Lemma indexes_keyed_by_slug_witness :
  exists (t : Tag.t) (c : Category.t),
    Map_get "t1" (GetTags lowerSlug false sampleStore) = Some t /\
    Map_get "rust" (GetCategories lowerSlug false sampleStore) = Some c /\
    Tag.name t = "t1" /\ map Notes.title (Tag.notes t) = ["A"; "B"; "E"] /\
    Category.name c = "Rust" /\ map Notes.title (Category.notes c) = ["A"; "B"] /\
    "t1" = lowerSlug (Tag.name t) /\ "rust" = lowerSlug (Category.name c).
Proof.
  destruct (indexes_keyed_by_slug lowerSlug false sampleStore)
    as ((_ & Htag & Htags) & (_ & Hcategory & Hcategories)).
  eexists _, _.
  split; [rewrite Htags; reflexivity|].
  split; [rewrite Hcategories; reflexivity|].
  split; [reflexivity|]. split; [reflexivity|].
  split; [reflexivity|]. split; [reflexivity|]. split.
  - apply Htag. apply list_elem_of_In. left. reflexivity.
  - apply Hcategory. apply list_elem_of_In. left. reflexivity.
Defined.

Lemma GetCategories_contributions_witness :
  contribution lowerSlug "rust" docD = [] /\
  contribution lowerSlug "rust" docC = [] /\
  contribution lowerSlug (lowerSlug "Rust") docA = [noteOf lowerSlug docA] /\
  contribution lowerSlug "go" docA = [].
Proof.
  destruct (GetCategories_contributions lowerSlug false sampleStore)
    as (_ & Hnone & Hone).
  split; [apply Hnone; reflexivity|].
  split; [apply Hnone; reflexivity|].
  destruct (Hone docA "Rust") as (Hthere & Helsewhere); [reflexivity|discriminate|].
  split; [exact Hthere|]. apply Helsewhere. discriminate.
Defined.

Lemma record_slug_paths_witness :
  exists (c : Category.t) (t : Tag.t),
    Map_get "go" (GetCategories lowerSlug false sampleStore) = Some c /\
    Map_get "t2" (GetTags lowerSlug false sampleStore) = Some t /\
    Category.slug c = "/categories/" +:+ lowerSlug (Category.name c) /\
    Tag.slug t = "/tags/" +:+ lowerSlug (Tag.name t).
Proof.
  destruct (record_slug_paths lowerSlug false sampleStore) as (Hcategory & Htag & _).
  eexists _, _. split; [reflexivity|]. split; [reflexivity|]. split.
  - apply (Hcategory "go"). apply list_elem_of_In. right. left. reflexivity.
  - apply (Htag "t2"). apply list_elem_of_In. right. left. reflexivity.
Defined.

(** The running example of the specification: A (2024-01-10, tags t1 t2),
    B (2024-06-01, tag t1), C (2023-12-01, no tag). *)
Example spec_example_chronological :
  map Entry.id (GetSortednotes true [docA; docB; docC]) = ["b.md"; "a.md"; "c.md"].
Proof. reflexivity. Qed.

Example spec_example_years :
  map (fun kv => (kv.1, map Notes.title kv.2))
    (GetNotes lowerSlug utcFullYear true [docA; docB; docC]) =
  [(2024, ["B"; "A"]); (2023, ["C"])].
Proof. vm_compute. reflexivity. Qed.

Example spec_example_tags :
  map (fun kv => (kv.1, map Notes.title (Tag.notes kv.2)))
    (GetTags lowerSlug true [docA; docB; docC]) =
  [("t1", ["A"; "B"]); ("t2", ["A"])].
Proof. reflexivity. Qed.

(** Two spellings of one slug end in one record named after the first. *)
Example spellings_merge :
  map (fun kv => (kv.1, Tag.name kv.2, map Notes.title (Tag.notes kv.2)))
    (GetTags lowerSlug true [docE; docA]) =
  [("t1", "T1", ["E"; "A"]); ("t2", "t2", ["A"])].
Proof. reflexivity. Qed.

(** ** Further properties of the views *)

Lemma getCollection_dev (store : list Entry.t) :
  getCollection store (draftFilter false) = store.
Proof.
  unfold getCollection, draftFilter. induction store as [|e store IH]; simpl; [done|].
  by rewrite IH.
Qed.

Lemma filter_all {A : Type} (f : A -> bool) (l : list A) :
  (forall x, x ∈ l -> f x = true) -> List.filter f l = l.
Proof.
  induction l as [|x l IH]; intros Hall; simpl; [done|].
  rewrite (Hall x) by (apply elem_of_cons; by left).
  rewrite IH; [done|]. intros y Hy. apply Hall. apply elem_of_cons. by right.
Qed.

Lemma sorted_lookup_le {A : Type} (key : A -> Z) (l : list A) (i j : nat) (x y : A) :
  StronglySorted (fun x y => key y <= key x) l ->
  (i < j)%nat -> l !! i = Some x -> l !! j = Some y -> key y <= key x.
Proof.
  intros Hs. revert i j. induction Hs as [|z l Hs IH Hall]; intros i j Hij Hx Hy; [done|].
  destruct j as [|j]; [lia|]. simpl in Hy. destruct i as [|i]; simpl in Hx.
  - injection Hx as <-. rewrite Forall_forall in Hall. apply Hall.
    by eapply list_elem_of_lookup_2.
  - apply (IH i j); [lia|done|done].
Qed.

Lemma getSortedNotes_sorted (PROD : bool) (store : list Entry.t) :
  StronglySorted (fun x y => publishedOf y <= publishedOf x) (getSortedNotes PROD store).
Proof. apply (Array_sort_sorted publishedOf byPublished byPublished_desc). Qed.

Lemma GetSortednotes_lookup_inv (PROD : bool) (store : list Entry.t) (j : nat) (e : Entry.t) :
  GetSortednotes PROD store !! j = Some e ->
  exists e0, getSortedNotes PROD store !! j = Some e0 /\
             e = linked (getSortedNotes PROD store) j e0.
Proof.
  rewrite GetSortednotes_lookup.
  destruct (getSortedNotes PROD store !! j) as [e0|]; [|done].
  simpl. intros [= <-]. by exists e0.
Qed.

Section ViewFacts.
Variable IdToSlug : string -> string.
Variable getFullYear : Date -> Z.

(** X1. Production views are the development views of the documents that
    are not drafts: filtering is the first step of every entry point and
    the only place where the environment is read. *)
Theorem production_is_development_without_drafts (store : list Entry.t) :
  let published := getCollection store (draftFilter true) in
  getSortedNotes true store = getSortedNotes false published /\
  GetSortednotes true store = GetSortednotes false published /\
  GetNotes IdToSlug getFullYear true store =
    GetNotes IdToSlug getFullYear false published /\
  GetTags IdToSlug true store = GetTags IdToSlug false published /\
  GetCategories IdToSlug true store = GetCategories IdToSlug false published.
Proof.
  intros published.
  unfold getSortedNotes, GetSortednotes, GetNotes, GetTags, GetCategories.
  by rewrite (getCollection_dev published).
Qed.

End ViewFacts.

(** X2. Sorting and stitching neither drop nor duplicate a document: the
    sequence of [getSortedNotes] is a rearrangement of the filtered
    collection, and that of [GetSortednotes] is the same sequence of
    documents, position by position, with link properties added. *)
Theorem chronological_rearranges (PROD : bool) (store : list Entry.t) :
  getSortedNotes PROD store ≡ₚ getCollection store (draftFilter PROD) /\
  map withoutLinks (GetSortednotes PROD store) =
    map withoutLinks (getSortedNotes PROD store) /\
  length (GetSortednotes PROD store) = length (getCollection store (draftFilter PROD)).
Proof.
  assert (Hp : getSortedNotes PROD store ≡ₚ getCollection store (draftFilter PROD))
    by apply (Array_sort_perm publishedOf byPublished byPublished_desc).
  split; [exact Hp|]. split; [apply GetSortednotes_withoutLinks|].
  by rewrite GetSortednotes_length, Hp.
Qed.

(** X3. The chronological sequences are ordered as a whole, not only at
    adjacent positions: a document at an earlier position is published no
    earlier than a document at any later position. *)
Theorem chronological_ordered_at_any_distance (PROD : bool) (store : list Entry.t)
    (i j : nat) (x y : Entry.t) :
  (i < j)%nat ->
  (getSortedNotes PROD store !! i = Some x ->
   getSortedNotes PROD store !! j = Some y ->
   Data.published (Entry.data y) <= Data.published (Entry.data x)) /\
  (GetSortednotes PROD store !! i = Some x ->
   GetSortednotes PROD store !! j = Some y ->
   Data.published (Entry.data y) <= Data.published (Entry.data x)).
Proof.
  intros Hij. pose proof (getSortedNotes_sorted PROD store) as Hs. split.
  - intros Hx Hy. exact (sorted_lookup_le publishedOf _ i j x y Hs Hij Hx Hy).
  - intros Hx Hy.
    apply GetSortednotes_lookup_inv in Hx as (x0 & Hx0 & ->).
    apply GetSortednotes_lookup_inv in Hy as (y0 & Hy0 & ->).
    pose proof (sorted_lookup_le publishedOf _ i j x0 y0 Hs Hij Hx0 Hy0) as Hle.
    destruct (linked_kept (getSortedNotes PROD store) i x0) as (_ & _ & Hpx & _).
    destruct (linked_kept (getSortedNotes PROD store) j y0) as (_ & _ & Hpy & _).
    unfold publishedOf in *. by rewrite Hpx, Hpy.
Qed.

Lemma chronological_ordered_at_any_distance_witness :
  Data.published (Entry.data docC) <= Data.published (Entry.data docB).
Proof.
  apply (proj1 (chronological_ordered_at_any_distance true sampleStore 0 3 docB docC
                  ltac:(lia))); reflexivity.
Defined.

(** X4. With no or one surviving document neither loop of [GetSortednotes]
    runs: the filtered collection is returned as it is, without any link
    property written. *)
Theorem GetSortednotes_at_most_one (PROD : bool) (store : list Entry.t) :
  (length (getCollection store (draftFilter PROD)) <= 1)%nat ->
  GetSortednotes PROD store = getCollection store (draftFilter PROD).
Proof.
  unfold GetSortednotes.
  destruct (getCollection store (draftFilter PROD)) as [|e [|e' l]]; simpl; intros Hl;
    [done|done|lia].
Qed.

Lemma GetSortednotes_at_most_one_witness :
  GetSortednotes true [docD; docB] = [docB].
Proof.
  apply (GetSortednotes_at_most_one true [docD; docB]). simpl. lia.
Defined.

Lemma sorted_by_keys {A B : Type} (key : A -> Z) (key' : B -> Z) (l : list A) (l' : list B) :
  map key l = map key' l' ->
  StronglySorted (fun x y => key' y <= key' x) l' ->
  StronglySorted (fun x y => key y <= key x) l.
Proof.
  intros Hmap Hs. revert l Hmap.
  induction Hs as [|y l' Hs IH Hall]; intros l Hmap.
  - destruct l; [constructor|done].
  - destruct l as [|x l]; [done|]. simpl in Hmap. injection Hmap as Hxy Hmap.
    constructor; [by apply IH|].
    apply Forall_forall. intros z Hz.
    assert (Hkz : key z ∈ map key' l').
    { rewrite <- Hmap. apply list_elem_of_fmap. by exists z. }
    apply list_elem_of_fmap in Hkz as (z' & -> & Hz').
    rewrite Forall_forall in Hall. rewrite Hxy. by apply Hall.
Qed.

Lemma Array_sort_sorted_id {A : Type} (key : A -> Z) (comparefn : A -> A -> Z) (l : list A) :
  (forall x y, (comparefn x y <? 0) = (key x >? key y)) ->
  StronglySorted (fun x y => key y <= key x) l -> Array_sort comparefn l = l.
Proof.
  intros Hc Hs. symmetry. by apply (Array_sort_unique key comparefn Hc).
Qed.

Lemma GetSortednotes_sorted (PROD : bool) (store : list Entry.t) :
  StronglySorted (fun x y => publishedOf y <= publishedOf x) (GetSortednotes PROD store).
Proof.
  apply (sorted_by_keys publishedOf publishedOf _ (getSortedNotes PROD store)).
  - apply GetSortednotes_published.
  - apply getSortedNotes_sorted.
Qed.

Lemma getSortedNotes_fixed (PROD : bool) (l : list Entry.t) :
  (forall e, e ∈ l -> draftFilter PROD e = true) ->
  StronglySorted (fun x y => publishedOf y <= publishedOf x) l ->
  getSortedNotes PROD l = l.
Proof.
  intros Hall Hs. unfold getSortedNotes, getCollection.
  rewrite filter_all by done.
  by apply (Array_sort_sorted_id publishedOf byPublished _ byPublished_desc).
Qed.

Lemma linked_ext (s s' : list Entry.t) (j : nat) (x : Entry.t) :
  (forall i, (fun e => (Entry.slug e, Data.title (Entry.data e))) <$> s !! i =
             (fun e => (Entry.slug e, Data.title (Entry.data e))) <$> s' !! i) ->
  linked s j x = linked s' j x.
Proof.
  intros Hs. unfold linked.
  assert (He1 :
    match j with
    | O => x
    | S j' =>
        match s !! j' with
        | Some before => setNext (Entry.slug before) (Data.title (Entry.data before)) x
        | None => x
        end
    end =
    match j with
    | O => x
    | S j' =>
        match s' !! j' with
        | Some before => setNext (Entry.slug before) (Data.title (Entry.data before)) x
        | None => x
        end
    end).
  { destruct j as [|j]; [done|]. specialize (Hs j).
    destruct (s !! j), (s' !! j); simpl in Hs; try done. by injection Hs as -> ->. }
  rewrite He1. specialize (Hs (S j)).
  destruct (s !! S j), (s' !! S j); simpl in Hs; try done. by injection Hs as -> ->.
Qed.

Lemma linked_twice (s : list Entry.t) (j : nat) (e : Entry.t) :
  linked s j (linked s j e) = linked s j e.
Proof.
  destruct e as [i sl []]. unfold linked.
  destruct j as [|j]; [|destruct (s !! j)]; by destruct (s !! S _).
Qed.

(** X5. Sorting and stitching are idempotent and compose: sorting a sorted
    or a stitched sequence returns it as it is, stitching the sorted
    sequence is stitching the collection, and stitching a stitched sequence
    writes the link properties it already has. *)
Theorem chronological_idempotent (PROD : bool) (store : list Entry.t) :
  getSortedNotes PROD (getSortedNotes PROD store) = getSortedNotes PROD store /\
  getSortedNotes PROD (GetSortednotes PROD store) = GetSortednotes PROD store /\
  GetSortednotes PROD (getSortedNotes PROD store) = GetSortednotes PROD store /\
  GetSortednotes PROD (GetSortednotes PROD store) = GetSortednotes PROD store.
Proof.
  assert (H1 : getSortedNotes PROD (getSortedNotes PROD store) = getSortedNotes PROD store).
  { apply getSortedNotes_fixed; [|apply getSortedNotes_sorted].
    intros e He. apply getSortedNotes_elem in He.
    by apply getCollection_elem in He as [_ ?]. }
  assert (H2 : getSortedNotes PROD (GetSortednotes PROD store) = GetSortednotes PROD store).
  { apply getSortedNotes_fixed; [|apply GetSortednotes_sorted].
    intros e He. apply list_elem_of_lookup_1 in He as [j Hj].
    apply GetSortednotes_lookup_inv in Hj as (e0 & He0 & ->).
    apply list_elem_of_lookup_2 in He0. apply getSortedNotes_elem in He0.
    apply getCollection_elem in He0 as [_ Hf].
    destruct (linked_kept (getSortedNotes PROD store) j e0) as (_ & _ & _ & Hw).
    change (draftFilter PROD (withoutLinks (linked (getSortedNotes PROD store) j e0)) = true).
    by rewrite Hw. }
  split; [exact H1|]. split; [exact H2|]. split.
  - by rewrite (GetSortednotes_imap PROD (getSortedNotes PROD store)), H1,
      <- GetSortednotes_imap.
  - rewrite (GetSortednotes_imap PROD (GetSortednotes PROD store)), H2.
    apply list_eq. intros j. rewrite list_lookup_imap, GetSortednotes_lookup.
    destruct (getSortedNotes PROD store !! j) as [e|]; [|done]. simpl. f_equal.
    rewrite (linked_ext _ (getSortedNotes PROD store)); [apply linked_twice|].
    intros i. rewrite GetSortednotes_lookup.
    destruct (getSortedNotes PROD store !! i) as [x|]; [|done]. simpl.
    by destruct (linked_kept (getSortedNotes PROD store) i x) as (-> & -> & _).
Qed.

(** X6. The loops only ever assign link properties, they never delete one:
    the first element of the sequence keeps the next links it arrived with
    and the last element keeps the prev links it arrived with, whatever
    they are. *)
Theorem GetSortednotes_keeps_arriving_links (PROD : bool) (store : list Entry.t)
    (first final first0 final0 : Entry.t) :
  let sorted := getSortedNotes PROD store in
  sorted !! 0%nat = Some first0 ->
  sorted !! (length sorted - 1)%nat = Some final0 ->
  GetSortednotes PROD store !! 0%nat = Some first ->
  GetSortednotes PROD store !! (length sorted - 1)%nat = Some final ->
  (Data.nextSlug (Entry.data first) = Data.nextSlug (Entry.data first0) /\
   Data.nextTitle (Entry.data first) = Data.nextTitle (Entry.data first0)) /\
  (Data.prevSlug (Entry.data final) = Data.prevSlug (Entry.data final0) /\
   Data.prevTitle (Entry.data final) = Data.prevTitle (Entry.data final0)).
Proof.
  intros sorted Hf0 Hl0. rewrite !GetSortednotes_lookup.
  fold sorted. rewrite Hf0, Hl0. simpl. intros [= <-] [= <-]. split.
  - pose proof (linked_next sorted 0 first0) as Hn. cbv beta iota in Hn.
    by injection Hn as -> ->.
  - pose proof (linked_prev sorted (length sorted - 1) final0) as Hp.
    pose proof (lookup_lt_Some _ _ _ Hl0) as Hlt.
    rewrite (lookup_ge_None_2 sorted (S (length sorted - 1))) in Hp by lia.
    by injection Hp as -> ->.
Qed.

Lemma GetSortednotes_keeps_arriving_links_witness :
  exists first final : Entry.t,
    GetSortednotes true [staleA; docC] !! 0%nat = Some first /\
    GetSortednotes true [staleA; docC] !! 1%nat = Some final /\
    Data.nextSlug (Entry.data first) = Data.nextSlug (Entry.data staleA) /\
    Data.prevSlug (Entry.data final) = Data.prevSlug (Entry.data docC).
Proof.
  eexists _, _. split; [reflexivity|]. split; [reflexivity|].
  destruct (GetSortednotes_keeps_arriving_links true [staleA; docC] _ _ staleA docC
              eq_refl eq_refl eq_refl eq_refl) as [[Hnext _] [Hprev _]].
  split; [exact Hnext|exact Hprev].
Defined.

(** ** Further properties of the indexes *)

Lemma sum_list_map_perm {A : Type} (f : A -> nat) (l l' : list A) :
  l ≡ₚ l' -> sum_list (map f l) = sum_list (map f l').
Proof. intros Hp. induction Hp; simpl; unfold id in *; lia. Qed.

Lemma filter_none {A : Type} (f : A -> bool) (l : list A) :
  (forall x, x ∈ l -> f x = false) -> List.filter f l = [].
Proof.
  induction l as [|x l IH]; intros Hall; simpl; [done|].
  rewrite (Hall x) by (apply elem_of_cons; by left).
  apply IH. intros y Hy. apply Hall. apply elem_of_cons. by right.
Qed.

Section GroupingOrder.
Context {K V X : Type} `{EqDecision K}.
Variables (kf : X -> K) (v0 : X -> V) (pu : X -> V -> V).

Lemma grouped_keys_order (xs : list X) :
  Map_keys (grouped kf v0 pu xs) = firstOccurrences (map kf xs).
Proof.
  induction xs as [|x xs IH] using rev_ind; [done|].
  rewrite grouped_snoc, upsert_keys, IH. unfold firstOccurrences.
  rewrite map_app, foldl_app. simpl.
  fold (firstOccurrences (map kf xs)). rewrite <- IH.
  destruct (Map_has (kf x) (grouped kf v0 pu xs)) eqn:E.
  - apply Map_has_keys in E. by rewrite decide_True.
  - rewrite decide_False; [done|]. intros Hin. apply Map_has_keys in Hin. congruence.
Qed.
End GroupingOrder.

Section IndexViewFacts.
Variable IdToSlug : string -> string.
Variable getFullYear : Date -> Z.

Local Abbreviation noteOf := (noteOf IdToSlug).
Local Abbreviation yearOf := (yearOf getFullYear).

Lemma yearBucket_elem (y : Z) (coll : list Entry.t) (n : Notes.t) :
  n ∈ yearBucket IdToSlug getFullYear y coll <->
  exists e, e ∈ coll /\ yearOf e = y /\ n = noteOf e.
Proof.
  unfold yearBucket. rewrite list_elem_of_In, in_map_iff. split.
  - intros (e & <- & He). apply filter_In in He as [He Hy].
    exists e. split; [by apply list_elem_of_In|]. split; [|done].
    by apply bool_decide_eq_true_1 in Hy.
  - intros (e & He & Hy & ->). exists e. split; [done|]. apply filter_In.
    split; [by apply list_elem_of_In|]. by apply bool_decide_eq_true_2.
Qed.

Lemma GetNotes_bucket_year (PROD : bool) (store : list Entry.t) (y : Z)
    (bucket : list Notes.t) :
  (y, bucket) ∈ GetNotes IdToSlug getFullYear PROD store ->
  exists e, e ∈ getCollection store (draftFilter PROD) /\ yearOf e = y.
Proof.
  rewrite GetNotes_sorted_entries. intros Hin.
  apply list_elem_of_fmap in Hin as ([y0 b0] & Heq & Hin). simpl in Heq.
  injection Heq as -> ->.
  rewrite (Array_sort_perm fst byYearDesc byYearDesc_desc) in Hin.
  apply Map_get_elem in Hin; [|apply grouped_keys_NoDup].
  by apply notes_get in Hin as [_ ?].
Qed.

(** X7. Every bucket of [GetNotes] is filed under the year of its own
    entries: the bucket kept under a year is not empty, it is a
    rearrangement of the entries of the filtered documents published in
    that year, and [getFullYear] of the date of each of its entries is that
    year. *)
Theorem GetNotes_buckets (PROD : bool) (store : list Entry.t) (y : Z)
    (bucket : list Notes.t) :
  (y, bucket) ∈ GetNotes IdToSlug getFullYear PROD store ->
  bucket <> [] /\
  bucket ≡ₚ yearBucket IdToSlug getFullYear y (getCollection store (draftFilter PROD)) /\
  (forall n : Notes.t, n ∈ bucket -> getFullYear (Notes.date n) = y).
Proof.
  intros Hin. pose proof (GetNotes_bucket_year PROD store y bucket Hin) as (e & He & Hy).
  apply GetNotes_bucket in Hin as ->.
  pose proof (Array_sort_perm Notes.date byDate byDate_desc
    (yearBucket IdToSlug getFullYear y (getCollection store (draftFilter PROD)))) as Hp.
  split; [|split; [exact Hp|]].
  - intros Hnil. rewrite Hnil in Hp. apply Permutation_nil in Hp.
    assert (Hn : noteOf e ∈
      yearBucket IdToSlug getFullYear y (getCollection store (draftFilter PROD)))
      by (apply yearBucket_elem; by exists e).
    rewrite Hp in Hn. by apply elem_of_nil in Hn.
  - intros n Hn. rewrite Hp in Hn.
    by apply yearBucket_elem in Hn as (e' & _ & <- & ->).
Qed.

(** X8. [GetNotes] files every filtered document exactly once: the lengths
    of its buckets add up to the number of filtered documents. *)
Theorem GetNotes_entry_count (PROD : bool) (store : list Entry.t) :
  sum_list (map (fun bucket : list Notes.t => length bucket)
              (Map_values (GetNotes IdToSlug getFullYear PROD store))) =
  length (getCollection store (draftFilter PROD)).
Proof.
  rewrite GetNotes_sorted_entries. unfold Map_values. rewrite !map_map. simpl.
  rewrite (map_ext _ (fun kv : Z * list Notes.t => length kv.2)).
  - rewrite (sum_list_map_perm _ _ _
               (Array_sort_perm fst byYearDesc byYearDesc_desc _)).
    rewrite <- (map_map snd (fun bucket : list Notes.t => length bucket)).
    apply (grouped_total yearOf (fun _ => []) (yearPush IdToSlug)
             (fun bucket : list Notes.t => length bucket)); [done|].
    intros x v. unfold yearPush. rewrite length_app. simpl. lia.
  - intros kv.
    by rewrite (Array_sort_perm Notes.date byDate byDate_desc kv.2).
Qed.

(** X9. The maps of [GetTags] and [GetCategories] iterate their keys in
    the order in which the slugs first occur: for tags along the documents
    of the filtered collection and, within a document, along its tag list;
    for categories along the documents that have a non-empty category. *)
Theorem index_keys_in_first_occurrence_order (PROD : bool) (store : list Entry.t) :
  let coll := getCollection store (draftFilter PROD) in
  Map_keys (GetTags IdToSlug PROD store) =
    firstOccurrences (map (fun p : Entry.t * string => IdToSlug p.2) (tagPairs coll)) /\
  Map_keys (GetCategories IdToSlug PROD store) =
    firstOccurrences (map (fun p : Entry.t * string => IdToSlug p.2) (categoryPairs coll)).
Proof.
  intros coll. split.
  - rewrite GetTags_grouped. apply grouped_keys_order.
  - rewrite GetCategories_grouped. apply grouped_keys_order.
Qed.

Lemma categoryPairs_length (coll : list Entry.t) :
  length (categoryPairs coll) =
  length (List.filter (fun e => negb (falsy (Data.category (Entry.data e)))) coll).
Proof.
  unfold categoryPairs, falsy. induction coll as [|d coll IH]; simpl; [done|].
  rewrite length_app, IH.
  destruct (Data.category (Entry.data d)) as [c|]; [|done].
  by destruct (bool_decide (c = EmptyString)).
Qed.

(** X10. The lengths of the notes lists of all Category records returned
    by [GetCategories] add up to the number of filtered documents whose
    category is a non-empty string. *)
Theorem GetCategories_entry_count (PROD : bool) (store : list Entry.t) :
  sum_list (map (fun c => length (Category.notes c))
              (Map_values (GetCategories IdToSlug PROD store))) =
  length (List.filter (fun e => negb (falsy (Data.category (Entry.data e))))
            (getCollection store (draftFilter PROD))).
Proof.
  rewrite GetCategories_grouped, <- categoryPairs_length.
  apply (grouped_total (tagKey IdToSlug) (categoryNew IdToSlug) (categoryPush IdToSlug)
           (fun c => length (Category.notes c))); [done|].
  intros x v. simpl. rewrite length_app. simpl. lia.
Qed.

(** X11. When every document of the collection is a draft, every
    production view is empty. *)
Theorem production_views_of_drafts_are_empty (store : list Entry.t) :
  (forall e : Entry.t, e ∈ store -> Data.draft (Entry.data e) = Some true) ->
  getSortedNotes true store = [] /\
  GetSortednotes true store = [] /\
  GetNotes IdToSlug getFullYear true store = [] /\
  GetTags IdToSlug true store = [] /\
  GetCategories IdToSlug true store = [].
Proof.
  intros Hall.
  assert (Hnil : getCollection store (draftFilter true) = []).
  { apply filter_none. intros e He. unfold draftFilter. by rewrite (Hall e He). }
  unfold getSortedNotes, GetSortednotes, GetNotes, GetTags, GetCategories.
  by rewrite Hnil.
Qed.

Lemma tagPairs_elem (coll : list Entry.t) (p : Entry.t * string) :
  p ∈ tagPairs coll <->
  p.1 ∈ coll /\ exists ts, Data.tags (Entry.data p.1) = Some ts /\ p.2 ∈ ts.
Proof.
  unfold tagPairs. rewrite list_elem_of_In, in_flat_map. split.
  - intros (d & Hd & Hp). apply in_map_iff in Hp as (t & <- & Ht). simpl.
    split; [by apply list_elem_of_In|].
    destruct (Data.tags (Entry.data d)) as [ts|]; [|done].
    exists ts. split; [done|]. by apply list_elem_of_In.
  - intros (Hd & ts & Hts & Ht). exists p.1. split; [by apply list_elem_of_In|].
    rewrite Hts. simpl. apply in_map_iff. exists p.2.
    split; [by destruct p|]. by apply list_elem_of_In.
Qed.

Lemma categoryPairs_elem (coll : list Entry.t) (p : Entry.t * string) :
  p ∈ categoryPairs coll <->
  p.1 ∈ coll /\ Data.category (Entry.data p.1) = Some p.2 /\ p.2 <> EmptyString.
Proof.
  unfold categoryPairs. rewrite list_elem_of_In, in_flat_map. split.
  - intros (d & Hd & Hp).
    destruct (Data.category (Entry.data d)) as [c|] eqn:Hc; [|done].
    destruct (bool_decide (c = EmptyString)) eqn:Hempty; [done|].
    destruct Hp as [<-|[]]. simpl. split; [by apply list_elem_of_In|].
    split; [done|]. by apply bool_decide_eq_false_1 in Hempty.
  - intros (Hd & Hc & Hne). exists p.1. split; [by apply list_elem_of_In|].
    rewrite Hc, bool_decide_eq_false_2 by done. left. by destruct p.
Qed.

(** X12. A Tag record of [GetTags] is never empty, and each of its entries
    is the entry of a filtered document that carries a tag whose slug is
    the key of the record. *)
Theorem GetTags_entries_sound (PROD : bool) (store : list Entry.t) (k : string)
    (r : Tag.t) :
  (k, r) ∈ GetTags IdToSlug PROD store ->
  Tag.notes r <> [] /\
  (forall n : Notes.t, n ∈ Tag.notes r ->
     exists (d : Entry.t) (ts : list string) (t : string),
       d ∈ getCollection store (draftFilter PROD) /\
       Data.tags (Entry.data d) = Some ts /\ t ∈ ts /\ IdToSlug t = k /\
       n = noteOf d).
Proof.
  intros Hin. apply Map_get_elem in Hin; [|apply GetTags_keys_NoDup].
  rewrite GetTags_get in Hin. unfold tagRecord in Hin.
  destruct (List.filter _ _) as [|p rest] eqn:E; [done|].
  injection Hin as <-. simpl. split; [done|]. intros n Hn.
  change (n ∈ map (fun q : Entry.t * string => noteOf q.1) (p :: rest)) in Hn.
  apply list_elem_of_fmap in Hn as (q & -> & Hq).
  rewrite <- E in Hq. apply list_elem_of_In, filter_In in Hq as [Hq Hslug].
  apply list_elem_of_In, tagPairs_elem in Hq as (Hd & ts & Hts & Ht).
  exists q.1, ts, q.2. by apply bool_decide_eq_true_1 in Hslug.
Qed.

(** X13. A Category record of [GetCategories] is never empty, and each of
    its entries is the entry of a filtered document whose category is a
    non-empty string with the key of the record as its slug. *)
Theorem GetCategories_entries_sound (PROD : bool) (store : list Entry.t) (k : string)
    (r : Category.t) :
  (k, r) ∈ GetCategories IdToSlug PROD store ->
  Category.notes r <> [] /\
  (forall n : Notes.t, n ∈ Category.notes r ->
     exists (d : Entry.t) (c : string),
       d ∈ getCollection store (draftFilter PROD) /\
       Data.category (Entry.data d) = Some c /\ c <> EmptyString /\
       IdToSlug c = k /\ n = noteOf d).
Proof.
  intros Hin. apply Map_get_elem in Hin; [|apply GetCategories_keys_NoDup].
  rewrite GetCategories_get in Hin. unfold categoryRecord in Hin.
  destruct (List.filter _ _) as [|p rest] eqn:E; [done|].
  injection Hin as <-. simpl. split; [done|]. intros n Hn.
  change (n ∈ map (fun q : Entry.t * string => noteOf q.1) (p :: rest)) in Hn.
  apply list_elem_of_fmap in Hn as (q & -> & Hq).
  rewrite <- E in Hq. apply list_elem_of_In, filter_In in Hq as [Hq Hslug].
  apply list_elem_of_In, categoryPairs_elem in Hq as (Hd & Hc & Hne).
  exists q.1, q.2. by apply bool_decide_eq_true_1 in Hslug.
Qed.


End IndexViewFacts.

(** ** The further properties on the sample documents *)

Lemma GetNotes_buckets_witness :
  default [] (Map_get 2023 (GetNotes lowerSlug utcFullYear true sampleStore)) <> [].
Proof.
  apply (GetNotes_buckets lowerSlug utcFullYear true sampleStore 2023).
  apply list_elem_of_In. vm_compute. right. left. reflexivity.
Defined.

Lemma production_views_of_drafts_are_empty_witness :
  GetSortednotes true draftsOnly = [] /\ GetTags lowerSlug true draftsOnly = [].
Proof.
  destruct (production_views_of_drafts_are_empty lowerSlug utcFullYear draftsOnly)
    as (_ & Hsorted & _ & Htags & _).
  - intros e He. apply list_elem_of_singleton in He as ->. reflexivity.
  - split; [exact Hsorted|exact Htags].
Defined.

Lemma GetTags_entries_sound_witness :
  exists r : Tag.t,
    Map_get "t1" (GetTags lowerSlug false sampleStore) = Some r /\ Tag.notes r <> [].
Proof.
  eexists. split; [reflexivity|].
  apply (GetTags_entries_sound lowerSlug false sampleStore "t1").
  apply list_elem_of_In. left. reflexivity.
Defined.

Lemma GetCategories_entries_sound_witness :
  exists r : Category.t,
    Map_get "rust" (GetCategories lowerSlug false sampleStore) = Some r /\
    Category.notes r <> [].
Proof.
  eexists. split; [reflexivity|].
  apply (GetCategories_entries_sound lowerSlug false sampleStore "rust").
  apply list_elem_of_In. left. reflexivity.
Defined.


Example tag_keys_in_first_occurrence_order :
  Map_keys (GetTags lowerSlug false [docC; docB; docE; docA]) = ["t1"; "t2"] /\
  Map_keys (GetCategories lowerSlug false [docC; docE; docB; docA]) = ["go"; "rust"].
Proof. split; reflexivity. Qed.
